(** * Observability and query-builder helpers: a shallow embedding

    The development follows the Python sources

    - [libs/db/utils.py]                      (identifier validation, query builders)
    - [libs/observability/logging.py]         (correlation id storage)
    - [libs-example/observability/metrics.py] (MetricsRegistry, the registry cache)
    - [libs/observability/decorators.py]      (the [manage_metrics] wrapper)
    - [libs-example/observability/shutdown.py] (the termination flag and its polling wait)

    Python code that raises is embedded in a state-and-exception monad: a
    computation maps the process state to an outcome (a value or a raised
    exception) together with the state reached, so that the effects performed
    before a [raise] stay visible, as they do in Python. *)

From Stdlib Require Import ZArith Lia Ascii String.
From stdpp Require Import base gmap strings list pretty.

Local Open Scope string_scope.
Local Open Scope Z_scope.

(** ** Python values, exceptions and outcomes *)

(** An exception object: its class name, whether the class derives from
    [Exception] (as opposed to [BaseException] only: [SystemExit],
    [KeyboardInterrupt], [GeneratorExit]), and the text of [str(e)]. *)
Record exn := Exn {
  exn_class : string;
  exn_is_Exception : bool;
  exn_msg : string
}.

Definition ValueError (msg : string) : exn := Exn "ValueError" true msg.
Definition RuntimeError (msg : string) : exn := Exn "RuntimeError" true msg.
Definition TypeError (msg : string) : exn := Exn "TypeError" true msg.
Definition AttributeError (msg : string) : exn := Exn "AttributeError" true msg.
Definition OSError (msg : string) : exn := Exn "OSError" true msg.
Definition KeyError (msg : string) : exn := Exn "KeyError" true msg.
Definition OverflowError (msg : string) : exn := Exn "OverflowError" true msg.

Inductive result (A : Type) : Type :=
  | Return (a : A)
  | Raise (e : exn).
Arguments Return {A} a.
Arguments Raise {A} e.

(** The Python values that reach the wrapper as call arguments.  [PRef] is a
    reference to a [MetricsRegistry] object of the store; [PUnhashable] stands
    for the values Python refuses as dictionary keys (lists, dicts, sets). *)
Inductive pyval : Type :=
  | PNone
  | PBool (b : bool)
  | PInt (z : Z)
  | PStr (s : string)
  | PUnhashable
  | PRef (r : nat).

(** ** Capabilities of the interpreter and of the libraries

    What the sources obtain from outside the repository: the random part of
    [uuid.uuid4()], the parser behind [int(...)], the metric-name check of the
    metrics sink, the value [start_http_server] hands back, and the attribute
    names every Python object answers to. *)
Class Externals := {
  (** [uuid.uuid4().hex[:12]] at the n-th call *)
  uuid4_hex12 : nat → string;
  (** [int(s)]; [None] when it raises [ValueError] *)
  py_int : string → option Z;
  (** whether the sink accepts this metric name *)
  sink_valid_name : string → bool;
  (** what [start_http_server] returns for the n-th listener: [None] is
      Python's [None]; [Some b] is an object, [b] telling whether it has a
      [shutdown] attribute *)
  http_server_value : nat → option bool;
  (** attribute names inherited from [object] *)
  py_object_attr : string → bool
}.

(** Sequencing of code that may raise but touches no state. *)
Definition rbind {A B : Type} (r : result A) (k : A → result B) : result B :=
  match r with
  | Return a => k a
  | Raise e => Raise e
  end.

(** A list comprehension whose element expression may raise: the first
    raising element ends the comprehension. *)
Fixpoint rmap {A B : Type} (f : A → result B) (l : list A) : result (list B) :=
  match l with
  | [] => Return []
  | x :: l' => rbind (f x) (λ y, rbind (rmap f l') (λ ys, Return (y :: ys)))
  end.

(** [sep.join(l)] *)
Fixpoint join (sep : string) (l : list string) : string :=
  match l with
  | [] => ""
  | [x] => x
  | x :: l' => x +:+ sep +:+ join sep l'
  end.

(** ** libs/db/utils.py *)

Definition ascii_between (lo hi : N) (c : ascii) : bool :=
  let n := N_of_ascii c in (lo <=? n)%N && (n <=? hi)%N.

(** The character class [[a-zA-Z_]] *)
Definition is_ident_start (c : ascii) : bool :=
  ascii_between 97 122 c || ascii_between 65 90 c || ascii_between 95 95 c.

(** The character class [[a-zA-Z0-9_]] *)
Definition is_ident_char (c : ascii) : bool :=
  is_ident_start c || ascii_between 48 57 c.

Definition newline : ascii := ascii_of_N 10.

(** [[a-zA-Z0-9_]*$] on the rest of the string.  In Python [$] matches at the
    end of the string and also just before a newline that ends the string. *)
Fixpoint match_ident_rest (s : string) : bool :=
  match s with
  | EmptyString => true
  | String c rest =>
      if is_ident_char c then match_ident_rest rest
      else Ascii.eqb c newline && String.eqb rest ""
  end.

(** [re.match(r'^[a-zA-Z_][a-zA-Z0-9_]*$', identifier)] as a truth value *)
Definition re_match_identifier (identifier : string) : bool :=
  match identifier with
  | EmptyString => false
  | String c rest => is_ident_start c && match_ident_rest rest
  end.

Definition invalid_identifier_msg (identifier : string) : string :=
  "Invalid identifier '" +:+ identifier +:+ "'. " +:+
  "Must start with letter or underscore and contain only letters, numbers, and underscores.".

Definition sanitize_identifier (identifier : string) : result string :=
  if negb (re_match_identifier identifier)
  then Raise (ValueError (invalid_identifier_msg identifier))
  else Return identifier.

Section QueryBuilders.
(** The values stored under the columns ([Any] in the source). *)
Context {V : Type}.

(** A Python [dict] with string keys, in insertion order. *)
Definition pydict : Type := list (string * V).

Definition keys (d : pydict) : list string := map fst d.

(** [d[k]]: [KeyError] when the key is missing *)
Fixpoint getitem (d : pydict) (k : string) : result V :=
  match d with
  | [] => Raise (KeyError ("'" +:+ k +:+ "'"))
  | (k', v) :: d' => if String.eqb k' k then Return v else getitem d' k
  end.

Definition build_insert_query (table_name : string) (data : pydict)
    (dialect : string) : result string :=
  rbind (sanitize_identifier table_name) (λ _,
  rbind (rmap sanitize_identifier (keys data)) (λ cols,
  let columns := join ", " cols in
  rbind
    (if String.eqb dialect "clickhouse" then
       Return (join ", " (map (λ col, "%(" +:+ col +:+ ")s") (keys data)))
     else if String.eqb dialect "postgres" || String.eqb dialect "postgresql" then
       Return (join ", " (map (λ _, "%s") (keys data)))
     else if String.eqb dialect "mysql" then
       Return (join ", " (map (λ _, "%s") (keys data)))
     else Raise (ValueError ("Unsupported dialect: " +:+ dialect)))
    (λ values,
  Return ("INSERT INTO " +:+ table_name +:+ " (" +:+ columns +:+ ") VALUES (" +:+ values +:+ ")")))).

(** The [for col in where.keys()] loop of [build_select_query]. *)
Fixpoint where_conditions (dialect : string) (cols : list string) : result (list string) :=
  match cols with
  | [] => Return []
  | col :: cols' =>
      rbind (sanitize_identifier col) (λ _,
      let cond := if String.eqb dialect "clickhouse"
                  then col +:+ " = %(" +:+ col +:+ ")s"
                  else col +:+ " = %s" in
      rbind (where_conditions dialect cols') (λ rest, Return (cond :: rest)))
  end.

Definition build_select_query (table_name : string) (columns : list string)
    (where_ : pydict) (limit : option Z) (order_by : option string)
    (dialect : string) : result string :=
  rbind (sanitize_identifier table_name) (λ _,
  rbind (match columns with
         | [] => Return "*"
         | _ => rbind (rmap sanitize_identifier columns) (λ cs, Return (join ", " cs))
         end) (λ cols,
  let query := "SELECT " +:+ cols +:+ " FROM " +:+ table_name in
  rbind (match where_ with
         | [] => Return query
         | _ => rbind (where_conditions dialect (keys where_)) (λ conditions,
                Return (query +:+ " WHERE " +:+ join " AND " conditions))
         end) (λ query,
  rbind (match order_by with
         | Some ob =>
             if String.eqb ob "" then Return query
             else rbind (sanitize_identifier ob) (λ _,
                  Return (query +:+ " ORDER BY " +:+ ob))
         | None => Return query
         end) (λ query,
  Return (match limit with
          | Some n => if n =? 0 then query else query +:+ " LIMIT " +:+ pretty n
          | None => query
          end))))).

(** The second component of what [build_batch_insert] returns: a list
    whose items are the records themselves (ClickHouse) or rows of values. *)
Inductive batch_item : Type :=
  | ItemRecord (record : pydict)
  | ItemRow (row : list V).

(** The [for col in columns: sanitize_identifier(col)] loop. *)
Fixpoint sanitize_all (cols : list string) : result unit :=
  match cols with
  | [] => Return tt
  | col :: cols' => rbind (sanitize_identifier col) (λ _, sanitize_all cols')
  end.

Definition build_batch_insert (table_name : string) (records : list pydict)
    (dialect : string) : result (string * list batch_item) :=
  match records with
  | [] => Return ("", [])
  | first :: _ =>
      rbind (sanitize_identifier table_name) (λ _,
      let columns := keys first in
      rbind (sanitize_all columns) (λ _,
      let cols_str := join ", " columns in
      if String.eqb dialect "clickhouse" then
        let query := "INSERT INTO " +:+ table_name +:+ " (" +:+ cols_str +:+ ") VALUES" in
        Return (query, map ItemRecord records)
      else
        let placeholders := join ", " (map (λ _, "%s") columns) in
        let query := "INSERT INTO " +:+ table_name +:+ " (" +:+ cols_str +:+ ") VALUES ("
                     +:+ placeholders +:+ ")" in
        rbind (rmap (λ record, rbind (rmap (getitem record) columns)
                                     (λ row, Return (ItemRow row))) records) (λ params,
        Return (query, params))))
  end.
End QueryBuilders.
Arguments pydict V : clear implicits.
Arguments batch_item V : clear implicits.

(** ** The process state *)

Inductive level : Type := DEBUG | INFO | WARNING | ERROR.

(** A labelled counter of the sink: its label names and, for each tuple of
    label values, the count reached.  Counts only ever grow by one, so a
    natural number stands for the sink's numeric value. *)
Record Counter := mkCounter {
  labelnames : list string;
  values : gmap (list string) nat
}.

(** A [MetricsRegistry] object.  [registry] is the [CollectorRegistry]: the set
    of metric names registered in it.  [errors_total] is the counter labelled
    by [error_type] and [component], keyed by the pair of label values;
    [health_status] is the value of the unlabelled gauge.  [attrs] holds the
    attributes attached later with [setattr]; every other field is set by
    [__init__]. *)
Record MetricsRegistry := mkRegistry {
  service_name : string;
  registry : gset string;
  port : option Z;
  server : option (nat * bool);
  _port_mapping : list (string * Z);
  _common_labels : gmap string string;
  service_info : gmap string string;
  service_start_time : Z;
  errors_total : gmap (string * string) nat;
  health_status : Z;
  attrs : gmap string Counter
}.

(** What lies outside the interpreter.  A server handle is the pair of the
    listener's index in [listeners] and whether the object has a [shutdown]
    attribute. *)
Record World := mkWorld {
  (** ports on which [bind] fails with [OSError], for the probe on
      [localhost] and for the server alike *)
  occupied : gset Z;
  (** ports of the listeners opened by [start_http_server], oldest first *)
  listeners : list Z;
  (** listeners on which [shutdown()] was called, oldest first *)
  stopped : list nat;
  (** [os.getenv('METRICS_PORT')] *)
  env_METRICS_PORT : option string;
  (** [time.time()] *)
  clock : Z;
  (** number of [uuid.uuid4()] calls so far *)
  uuid_calls : nat;
  (** records handed to the logger, oldest first *)
  log : list (level * string)
}.

(** The interpreter state: the store of [MetricsRegistry] objects (references
    are the keys), the module globals [_service_registries] and
    [_metrics_servers] of [metrics.py] (the latter in insertion order, which
    is the order [shutdown_metrics_servers] walks it in), the thread-local
    [_correlation_context] of [logging.py] (one slot per thread; a missing
    key is a thread on which the attribute was never assigned), and the
    world. *)
Record State := mkState {
  heap : gmap nat MetricsRegistry;
  _service_registries : gmap string nat;
  _metrics_servers : list (string * option (nat * bool));
  _correlation_context : gmap nat (option string);
  world : World
}.

Definition M (A : Type) : Type := State → result A * State.

Definition ret {A : Type} (a : A) : M A := λ st, (Return a, st).
Definition raise {A : Type} (e : exn) : M A := λ st, (Raise e, st).
Definition bind {A B : Type} (c : M A) (k : A → M B) : M B :=
  λ st, match c st with
        | (Return a, st') => k a st'
        | (Raise e, st') => (Raise e, st')
        end.

Notation "'let!' x ':=' c 'in' k" := (bind c (λ x, k))
  (at level 10, x pattern, c at level 100, k at level 200).
Notation "c ';;' k" := (bind c (λ _, k))
  (at level 100, k at level 200, right associativity).

(** *** Field updates *)

Definition with_world (f : World → World) (st : State) : State :=
  mkState (heap st) (_service_registries st) (_metrics_servers st)
          (_correlation_context st) (f (world st)).

Definition with_heap (f : gmap nat MetricsRegistry → gmap nat MetricsRegistry)
    (st : State) : State :=
  mkState (f (heap st)) (_service_registries st) (_metrics_servers st)
          (_correlation_context st) (world st).

Definition with_registries (f : gmap string nat → gmap string nat) (st : State) : State :=
  mkState (heap st) (f (_service_registries st)) (_metrics_servers st)
          (_correlation_context st) (world st).

Definition with_servers
    (f : list (string * option (nat * bool)) → list (string * option (nat * bool)))
    (st : State) : State :=
  mkState (heap st) (_service_registries st) (f (_metrics_servers st))
          (_correlation_context st) (world st).

Definition with_context (f : gmap nat (option string) → gmap nat (option string))
    (st : State) : State :=
  mkState (heap st) (_service_registries st) (_metrics_servers st)
          (f (_correlation_context st)) (world st).

Definition add_log (l : level) (msg : string) (w : World) : World :=
  mkWorld (occupied w) (listeners w) (stopped w) (env_METRICS_PORT w) (clock w)
          (uuid_calls w) (log w ++ [(l, msg)]).

Definition add_listener (p : Z) (w : World) : World :=
  mkWorld ({[p]} ∪ occupied w) (listeners w ++ [p]) (stopped w) (env_METRICS_PORT w)
          (clock w) (uuid_calls w) (log w).

Definition add_stopped (i : nat) (w : World) : World :=
  mkWorld (occupied w) (listeners w) (stopped w ++ [i]) (env_METRICS_PORT w)
          (clock w) (uuid_calls w) (log w).

Definition tick_uuid (w : World) : World :=
  mkWorld (occupied w) (listeners w) (stopped w) (env_METRICS_PORT w) (clock w)
          (S (uuid_calls w)) (log w).

Definition set_port_server (p : option Z) (s : option (nat * bool))
    (r : MetricsRegistry) : MetricsRegistry :=
  mkRegistry (service_name r) (registry r) p s (_port_mapping r) (_common_labels r)
             (service_info r) (service_start_time r) (errors_total r)
             (health_status r) (attrs r).

Definition set_errors_total (c : gmap (string * string) nat) (r : MetricsRegistry) : MetricsRegistry :=
  mkRegistry (service_name r) (registry r) (port r) (server r) (_port_mapping r)
             (_common_labels r) (service_info r) (service_start_time r) c
             (health_status r) (attrs r).

Definition set_health (v : Z) (r : MetricsRegistry) : MetricsRegistry :=
  mkRegistry (service_name r) (registry r) (port r) (server r) (_port_mapping r)
             (_common_labels r) (service_info r) (service_start_time r)
             (errors_total r) v (attrs r).

Definition set_registry (names : gset string) (r : MetricsRegistry) : MetricsRegistry :=
  mkRegistry (service_name r) names (port r) (server r) (_port_mapping r)
             (_common_labels r) (service_info r) (service_start_time r)
             (errors_total r) (health_status r) (attrs r).

Definition set_attrs (a : gmap string Counter) (r : MetricsRegistry) : MetricsRegistry :=
  mkRegistry (service_name r) (registry r) (port r) (server r) (_port_mapping r)
             (_common_labels r) (service_info r) (service_start_time r)
             (errors_total r) (health_status r) a.

(** [logger.<level>(msg)] *)
Definition logger (l : level) (msg : string) : M unit :=
  λ st, (Return tt, with_world (add_log l msg) st).

(** Reading the object behind a reference.  References are only made by
    [MetricsRegistry(...)], so a dangling one is an error of the caller; it
    shows as [ReferenceError]. *)
Definition deref (rid : nat) : M MetricsRegistry :=
  λ st, match heap st !! rid with
        | Some r => (Return r, st)
        | None => (Raise (Exn "ReferenceError" true ""), st)
        end.

(** In-place mutation of the object behind a reference. *)
Definition mutate (rid : nat) (f : MetricsRegistry → MetricsRegistry) : M unit :=
  λ st, (Return tt, with_heap (alter f rid) st).

(** Lookup and assignment in a dictionary kept in insertion order. *)
Fixpoint assoc {A : Type} (k : string) (d : list (string * A)) : option A :=
  match d with
  | [] => None
  | (k', v) :: d' => if String.eqb k' k then Some v else assoc k d'
  end.

Fixpoint dict_set {A : Type} (k : string) (v : A) (d : list (string * A)) : list (string * A) :=
  match d with
  | [] => [(k, v)]
  | (k', v') :: d' => if String.eqb k' k then (k, v) :: d' else (k', v') :: dict_set k v d'
  end.

(** [key in s] on strings: [key] occurs in [s] as a contiguous substring. *)
Fixpoint is_substring (key s : string) : bool :=
  String.prefix key s ||
  match s with
  | EmptyString => false
  | String _ s' => is_substring key s'
  end.

(** The numbers [bind] takes for a port. *)
Definition valid_port (p : Z) : bool := (0 <=? p) && (p <=? 65535).

(** [x or ...] on an optional port: [None] and [0] are falsy. *)
Definition truthy_port (p : option Z) : option Z :=
  match p with
  | Some z => if z =? 0 then None else Some z
  | None => None
  end.

Section Observability.
Context `{Externals}.

(** ** libs/observability/logging.py *)

Definition generate_correlation_id : M string :=
  λ st, (Return ("req_" +:+ uuid4_hex12 (uuid_calls (world st))),
         with_world tick_uuid st).

(** [getattr(_correlation_context, 'correlation_id', None)] on thread [t] *)
Definition get_correlation_id (t : nat) : M (option string) :=
  λ st, (Return (default None (_correlation_context st !! t)), st).

Definition set_correlation_id (t : nat) (correlation_id : option string) : M unit :=
  λ st, (Return tt, with_context (<[t := correlation_id]>) st).

(** ** libs-example/observability/metrics.py *)

Definition _default_label_extractor (name : string) : gmap string string :=
  {[ "service" := name ]}.

(** The object [__init__] leaves behind ([_init_common_metrics] included):
    four instruments registered in a fresh collector registry, the start
    time read from the clock, the health gauge set to 1. *)
Definition init_MetricsRegistry (name : string) (port_arg : option Z)
    (port_mapping : option (list (string * Z)))
    (label_extractor : option (string → gmap string string))
    (w : World) : MetricsRegistry :=
  let common := default _default_label_extractor label_extractor name in
  {| service_name := name;
     registry := {[ "service_info"; "service_start_time_seconds";
                    "service_errors_total"; "service_health_status" ]};
     port := port_arg;
     server := None;
     _port_mapping := default [] port_mapping;
     _common_labels := common;
     service_info := common ∪ {[ "service_name" := name; "version" := "1.0.0" ]};
     service_start_time := clock w;
     errors_total := ∅;
     health_status := 1;
     attrs := ∅ |}.

(** [MetricsRegistry(...)]: a new object in the store; its reference. *)
Definition new_MetricsRegistry (name : string) (port_arg : option Z)
    (port_mapping : option (list (string * Z)))
    (label_extractor : option (string → gmap string string)) : M nat :=
  λ st, let rid := fresh (dom (heap st)) in
        (Return rid,
         with_heap (<[rid := init_MetricsRegistry name port_arg port_mapping
                               label_extractor (world st)]>) st).

(** [Counter(name, description, labelnames or [], registry=self.registry)]:
    the sink refuses a name it finds invalid or already registered. *)
Definition create_counter (rid : nat) (name description : string)
    (labels : option (list string)) : M Counter :=
  let! r := deref rid in
  if negb (sink_valid_name name) then
    raise (ValueError ("Invalid metric name: " +:+ name))
  else if bool_decide (name ∈ registry r) then
    raise (ValueError ("Duplicated timeseries in CollectorRegistry: " +:+ name))
  else
    mutate rid (set_registry ({[name]} ∪ registry r)) ;;
    ret (mkCounter (default [] labels) ∅).

(** [s.bind(('localhost', port))] on a fresh socket that is closed again:
    [True] when the bind succeeds, [False] when it raises [OSError]; a number
    that is no port makes [bind] raise [OverflowError], which is not caught. *)
Definition _is_port_available (p : Z) : M bool :=
  λ st, if valid_port p then
          (Return (bool_decide (p ∉ occupied (world st))), st)
        else (Raise (OverflowError "bind(): port must be 0-65535."), st).

(** [start_http_server(port, registry=...)] of the metrics library: binds
    the port, which fails with [OSError] on an occupied one. *)
Definition start_http_server (p : Z) : M (option (nat * bool)) :=
  λ st, if negb (valid_port p) then
          (Raise (OverflowError "bind(): port must be 0-65535."), st)
        else if bool_decide (p ∈ occupied (world st)) then
          (Raise (OSError "Address already in use"), st)
        else
          let n := length (listeners (world st)) in
          (Return (pair n <$> http_server_value n), with_world (add_listener p) st).

(** The loop [for port in range(start_port, start_port + 100)], [n] ports
    left to try from [p] on. *)
Fixpoint find_port_loop (n : nat) (start_port p : Z) : M Z :=
  match n with
  | O => raise (RuntimeError ("No available ports found starting from " +:+ pretty start_port))
  | S n' =>
      let! free := _is_port_available p in
      if free then ret p else find_port_loop n' start_port (p + 1)
  end.

Definition _find_available_port (start_port : Z) : M Z :=
  find_port_loop 100 start_port start_port.

(** The loop [for key, port in self._port_mapping.items()]. *)
Fixpoint first_mapped_port (name : string) (mapping : list (string * Z)) : option Z :=
  match mapping with
  | [] => None
  | (key, p) :: mapping' =>
      if is_substring key name then Some p else first_mapped_port name mapping'
  end.

Definition _get_default_port (rid : nat) : M Z :=
  let! r := deref rid in
  λ st,
    match env_METRICS_PORT (world st) with
    | Some env_port =>
        if negb (String.eqb env_port "") then
          match py_int env_port with
          | Some z => (Return z, st)
          | None => (Raise (ValueError ("invalid literal for int() with base 10: '"
                                        +:+ env_port +:+ "'")), st)
          end
        else (Return (default 9090 (first_mapped_port (service_name r) (_port_mapping r))), st)
    | None => (Return (default 9090 (first_mapped_port (service_name r) (_port_mapping r))), st)
    end.

(** [port or self.port or self._get_default_port()] *)
Definition resolve_target_port (rid : nat) (port_arg : option Z) : M Z :=
  let! r := deref rid in
  match truthy_port port_arg with
  | Some p => ret p
  | None => match truthy_port (port r) with
            | Some p => ret p
            | None => _get_default_port rid
            end
  end.

Definition start_metrics_server (rid : nat) (port_arg : option Z) : M bool :=
  let! r := deref rid in
  match server r with
  | Some _ =>
      logger WARNING ("Metrics server already running for " +:+ service_name r) ;;
      ret true
  | None =>
      let! target_port := resolve_target_port rid port_arg in
      let! free := _is_port_available target_port in
      let! target_port :=
        (if negb free then
           logger WARNING ("Port " +:+ pretty target_port
                           +:+ " not available, trying next available port") ;;
           _find_available_port target_port
         else ret target_port) in
      let! srv := start_http_server target_port in
      mutate rid (set_port_server (Some target_port) srv) ;;
      logger INFO ("Metrics server started for " +:+ service_name r
                   +:+ " on port " +:+ pretty target_port) ;;
      logger INFO ("Metrics available at: http://localhost:" +:+ pretty target_port
                   +:+ "/metrics") ;;
      ret true
  end.

Definition record_error (rid : nat) (error_type component : string) : M unit :=
  mutate rid (λ r, set_errors_total
    (<[(error_type, component) := S (default O (errors_total r !! (error_type, component)))]>
       (errors_total r)) r).

Definition set_health_status (rid : nat) (healthy : bool) : M unit :=
  mutate rid (set_health (if healthy then 1 else 0)).

(** The body runs under [with _metrics_lock]; in this sequential model the
    lock is free on entry and released on every exit. *)
Definition setup_metrics (name : string) (port_arg : option Z)
    (port_mapping : option (list (string * Z))) (start_server : bool) : M nat :=
  λ st,
    match _service_registries st !! name with
    | Some rid =>
        (logger DEBUG ("Metrics already setup for " +:+ name) ;; ret rid) st
    | None =>
        (let! metrics_registry := new_MetricsRegistry name port_arg port_mapping None in
         (λ st', (Return tt, with_registries (<[name := metrics_registry]>) st')) ;;
         (if start_server then
            let! success := start_metrics_server metrics_registry None in
            if success then
              let! r := deref metrics_registry in
              λ st', (Return tt, with_servers (dict_set name (server r)) st')
            else ret tt
          else ret tt) ;;
         logger INFO ("Metrics setup completed for service: " +:+ name) ;;
         ret metrics_registry) st
    end.

(** [_service_registries.get(service_name)], on whatever value the caller
    passes: a key that is not a string is never found, an unhashable one
    makes the lookup raise. *)
Definition get_metrics_registry (key : pyval) : M (option nat) :=
  λ st, match key with
        | PStr s => (Return (_service_registries st !! s), st)
        | PUnhashable => (Raise (TypeError "unhashable type"), st)
        | _ => (Return None, st)
        end.

(** The loop [for service_name, server in _metrics_servers.items()]. *)
Fixpoint shutdown_loop (servers : list (string * option (nat * bool))) : M unit :=
  match servers with
  | [] => ret tt
  | (name, srv) :: servers' =>
      (match srv with
       | Some (i, true) => λ st, (Return tt, with_world (add_stopped i) st)
       | _ => ret tt
       end) ;;
      logger INFO ("Shutdown metrics server for " +:+ name) ;;
      shutdown_loop servers'
  end.

Definition shutdown_metrics_servers : M unit :=
  λ st, (shutdown_loop (_metrics_servers st) ;;
         (λ st', (Return tt, with_servers (λ _, []) st'))) st.

(** ** libs/observability/decorators.py *)

(** A Python function: its [__name__] and what a call does, on thread [t],
    with positional and keyword arguments. *)
Record pyfunc := mkFunc {
  __name__ : string;
  call : nat → list pyval → gmap string pyval → M pyval
}.

(** The attributes a [MetricsRegistry] has from its class and [__init__]. *)
Definition class_attrs : list string :=
  [ "service_name"; "registry"; "port"; "server"; "_port_mapping";
    "_label_extractor"; "_common_labels"; "service_info"; "service_start_time";
    "errors_total"; "health_status";
    "_default_label_extractor"; "_init_common_metrics"; "create_counter";
    "create_histogram"; "create_gauge"; "start_metrics_server";
    "_get_default_port"; "_is_port_available"; "_find_available_port";
    "get_metrics_text"; "record_error"; "set_health_status" ].

Definition hasattr (r : MetricsRegistry) (name : string) : bool :=
  bool_decide (is_Some (attrs r !! name))
  || bool_decide (name ∈ class_attrs) || py_object_attr name.

(** [c.labels(...).inc()], with keyword arguments [kw], on a counter of the sink: the keywords must be
    exactly the counter's label names. *)
Definition labels_inc (kw : list (string * string)) (c : Counter) : result Counter :=
  if bool_decide (labelnames c = []) then
    Raise (ValueError "No label names were set when constructing the metric")
  else if negb (bool_decide (map fst kw ≡ₚ labelnames c)) then
    Raise (ValueError "Incorrect label names")
  else
    let key := map (λ l, default "" (assoc l kw)) (labelnames c) in
    Return (mkCounter (labelnames c)
              (<[key := S (default O (values c !! key))]> (values c))).

(** [getattr(metrics_registry, name).labels(component="main").inc()].  An
    attribute attached with [setattr] is a counter.  Of the attributes set by
    [__init__], [errors_total] has other label names, the info metric and the
    two gauges have none, and the remaining ones are no metrics at all. *)
Definition getattr_labels_inc (rid : nat) (name : string) : M unit :=
  let! r := deref rid in
  match attrs r !! name with
  | Some c =>
      match labels_inc [("component", "main")] c with
      | Return c' => mutate rid (λ r, set_attrs (<[name := c']> (attrs r)) r)
      | Raise e => raise e
      end
  | None =>
      if String.eqb name "errors_total" then
        raise (ValueError "Incorrect label names")
      else if bool_decide (name ∈ ["service_info"; "service_start_time"; "health_status"]) then
        raise (ValueError "No label names were set when constructing the metric")
      else
        raise (AttributeError "object has no attribute 'labels'")
  end.

(** The instrumentation that follows a normal return of the wrapped
    function, for a registry that was found. *)
Definition record_success (success_metric_name : string) (func : pyfunc)
    (rid : nat) : M unit :=
  let! r := deref rid in
  (if negb (hasattr r success_metric_name) then
     let! c := create_counter rid success_metric_name
                 ("Total number of successful " +:+ __name__ func +:+ " executions")
                 (Some ["component"]) in
     mutate rid (λ r, set_attrs (<[success_metric_name := c]> (attrs r)) r)
   else ret tt) ;;
  getattr_labels_inc rid success_metric_name ;;
  set_health_status rid true ;;
  logger INFO ("Successfully recorded " +:+ success_metric_name
               +:+ " for " +:+ __name__ func).

(** The lookup at the head of the [try] block: the first positional
    argument when it is a string, else the [service_name] keyword. *)
Definition lookup_registry (args : list pyval) (kwargs : gmap string pyval)
    : M (option nat) :=
  match args with
  | PStr s :: _ => get_metrics_registry (PStr s)
  | _ => match kwargs !! "service_name" with
         | Some v => get_metrics_registry v
         | None => ret None
         end
  end.

(** The [try] block.  Besides the outcome it yields the value the local
    variable [metrics_registry] has when the block is left, which the
    [except] clause reads.  When the lookup finds nothing the function is
    called through [capture_locals], whose own [locals()] has no
    [metrics_registry] entry, so the variable stays [None]. *)
Definition try_block (success_metric_name : string) (func : pyfunc) (t : nat)
    (args : list pyval) (kwargs : gmap string pyval)
    : State → result pyval * option nat * State :=
  λ st,
    match lookup_registry args kwargs st with
    | (Raise e, st1) => (Raise e, None, st1)
    | (Return None, st1) =>
        let '(res, st2) := call func t args kwargs st1 in (res, None, st2)
    | (Return (Some rid), st1) =>
        match call func t args kwargs st1 with
        | (Raise e, st2) => (Raise e, Some rid, st2)
        | (Return result, st2) =>
            match record_success success_metric_name func rid st2 with
            | (Raise e, st3) => (Raise e, Some rid, st3)
            | (Return _, st3) => (Return result, Some rid, st3)
            end
        end
    end.

(** The [except Exception as e] clause: it runs for exceptions that derive
    from [Exception] only, and ends in a bare [raise]. *)
Definition except_clause (failure_metric_name : string) (func : pyfunc)
    (metrics_registry : option nat) (e : exn) : M pyval :=
  match metrics_registry with
  | Some rid =>
      record_error rid failure_metric_name "main" ;;
      set_health_status rid false ;;
      logger ERROR ("Failed to execute " +:+ __name__ func +:+ ": " +:+ exn_msg e) ;;
      raise e
  | None => raise e
  end.

(** The first lines of the wrapper: the correlation id in force on the
    thread, or a new one when there is none (or an empty one), is stored in
    the thread's slot. *)
Definition correlation_prologue (t : nat) : M string :=
  let! current := get_correlation_id t in
  let! correlation_id :=
    (match current with
     | Some c => if String.eqb c "" then generate_correlation_id else ret c
     | None => generate_correlation_id
     end) in
  set_correlation_id t (Some correlation_id) ;;
  ret correlation_id.

(** [manage_metrics(success_metric_name, failure_metric_name)(func)]
    called on thread [t]. *)
Definition manage_metrics (success_metric_name failure_metric_name : string)
    (func : pyfunc) (t : nat) (args : list pyval) (kwargs : gmap string pyval)
    : M pyval :=
  let! correlation_id := correlation_prologue t in
  λ st,
    let '(res, metrics_registry, st1) :=
      try_block success_metric_name func t args kwargs st in
    let '(res', st2) :=
      match res with
      | Raise e =>
          if exn_is_Exception e
          then except_clause failure_metric_name func metrics_registry e st1
          else (Raise e, st1)
      | Return v => (Return v, st1)
      end in
    (* finally *)
    (res', snd (set_correlation_id t None st2)).

(** ** Client programs

    Code that uses the module: sequences of calls of its functions, on
    thread [t], among them functions wrapped by [manage_metrics] whose bodies
    are such code again.  A statement that raises ends the sequence it is in. *)
Inductive prog : Type :=
  | PSkip
  | PSeq (p q : prog)
  | PRaise (e : exn)
  | PSetup (name : string) (port_arg : option Z)
      (port_mapping : option (list (string * Z))) (start_server : bool)
  | PNewRegistry (name : string) (port_arg : option Z)
      (port_mapping : option (list (string * Z)))
      (label_extractor : option (string → gmap string string))
  | PStartServer (rid : nat) (port_arg : option Z)
  | PCreateCounter (rid : nat) (name description : string) (labels : option (list string))
  | PRecordError (rid : nat) (error_type component : string)
  | PSetHealth (rid : nat) (healthy : bool)
  | PShutdownServers
  | PSetCorrelationId (t : nat) (correlation_id : option string)
  | PWrapped (success_metric_name failure_metric_name fname : string)
      (args : list pyval) (kwargs : gmap string pyval) (body : prog) (result : pyval).

Fixpoint exec (t : nat) (p : prog) : M pyval :=
  match p with
  | PSkip => ret PNone
  | PSeq p q => exec t p ;; exec t q
  | PRaise e => raise e
  | PSetup name port_arg port_mapping start_server =>
      let! rid := setup_metrics name port_arg port_mapping start_server in ret (PRef rid)
  | PNewRegistry name port_arg port_mapping label_extractor =>
      let! rid := new_MetricsRegistry name port_arg port_mapping label_extractor in
      ret (PRef rid)
  | PStartServer rid port_arg =>
      let! b := start_metrics_server rid port_arg in ret (PBool b)
  | PCreateCounter rid name description labels =>
      create_counter rid name description labels ;; ret PNone
  | PRecordError rid error_type component =>
      record_error rid error_type component ;; ret PNone
  | PSetHealth rid healthy => set_health_status rid healthy ;; ret PNone
  | PShutdownServers => shutdown_metrics_servers ;; ret PNone
  | PSetCorrelationId t' correlation_id =>
      set_correlation_id t' correlation_id ;; ret PNone
  | PWrapped success_metric_name failure_metric_name fname args kwargs body result =>
      manage_metrics success_metric_name failure_metric_name
        (mkFunc fname (λ t' _ _, exec t' body ;; ret result)) t args kwargs
  end.
End Observability.

(** ** libs-example/observability/shutdown.py

    Durations and instants are whole numbers of ticks, a tick being a unit
    fine enough for every duration at hand (finitely many floating-point
    numbers are whole multiples of a common power of two), so that sums and
    differences are exact.  A suspension of the running context either hands
    control back to the event loop ([await asyncio.sleep(d)]) or holds the
    thread ([time.sleep(d)]). *)

Inductive suspension : Type :=
  | AsyncSleep (d : Z)
  | BlockingSleep (d : Z).

(** Time a suspension takes: a delay that is not positive does not wait. *)
Definition duration (s : suspension) : Z :=
  match s with
  | AsyncSleep d => Z.max 0 d
  | BlockingSleep d => Z.max 0 d
  end.

Section Shutdown.
(** Ticks per second. *)
Variable second : Z.

(** The signal-handling side: the module global [terminate_event], the
    records logged and the suspensions performed by the handler. *)
Record SignalState := mkSignalState {
  terminate_event : bool;
  signal_log : list (level * string);
  signal_trace : list suspension
}.

Definition shutdown_handler (signum : Z) (s : SignalState) : SignalState :=
  {| terminate_event := true;
     signal_log := signal_log s ++
       [(INFO, "Shutdown signal received (signal=" +:+ pretty signum
               +:+ "). Waiting for current processing to complete...")];
     signal_trace := signal_trace s ++ [BlockingSleep (2 * second)] |}.

(** The polling side.  [is_set t] is what [terminate_event.is_set()]
    answers at instant [t]. *)
Variable is_set : Z → bool.

(** The [while elapsed < timeout] loop with the final [return], run for at
    most [fuel] tests of the loop condition: the outcome, the instant of
    return, and the suspensions performed, oldest first.  [None] when the
    fuel does not suffice. *)
Fixpoint wait_loop (fuel : nat) (timeout check_interval elapsed now : Z)
    (trace : list suspension) : option (bool * Z * list suspension) :=
  match fuel with
  | O => None
  | S fuel' =>
      if elapsed <? timeout then
        if is_set now then Some (true, now, trace)
        else
          let s := AsyncSleep (Z.min check_interval (timeout - elapsed)) in
          wait_loop fuel' timeout check_interval (elapsed + check_interval)
                    (now + duration s) (trace ++ [s])
      else Some (is_set now, now, trace)
  end.

(** [async_wait_for_termination(timeout, check_interval)] entered at
    instant [now]. *)
Definition async_wait_for_termination (fuel : nat) (timeout check_interval now : Z)
    : option (bool * Z * list suspension) :=
  wait_loop fuel timeout check_interval 0 now [].
End Shutdown.

(** The flag of a process on which the first termination signal is handled at
    instant [T] ([None]: no signal ever): clear before, set from then on. *)
Definition flag_set_from (T : option Z) (t : Z) : bool :=
  match T with
  | Some T0 => T0 <=? t
  | None => false
  end.

(** ** Vocabulary of the statements about the query builders *)

(** An outcome that reports an invalid identifier. *)
Definition raises_invalid_identifier {A : Type} (r : result A) : Prop :=
  ∃ s, re_match_identifier s = false ∧ r = Raise (ValueError (invalid_identifier_msg s)).

Definition all_valid (l : list string) : Prop :=
  ∀ s, In s l → re_match_identifier s = true.

(** The identifiers each builder validates, in the order it does. *)
Definition insert_identifiers {V} (table_name : string) (data : pydict V) : list string :=
  table_name :: keys data.

Definition select_identifiers {V} (table_name : string) (columns : list string)
    (where_ : pydict V) (order_by : option string) : list string :=
  table_name :: columns ++ keys where_ ++
  match order_by with
  | Some ob => if String.eqb ob "" then [] else [ob]
  | None => []
  end.

Definition supported_insert_dialect (dialect : string) : bool :=
  String.eqb dialect "clickhouse" || String.eqb dialect "postgres"
  || String.eqb dialect "postgresql" || String.eqb dialect "mysql".

(** ** Vocabulary of the statements about the registry and the wrapper *)

(** The process at start-up: no object, empty module globals, no thread has a
    correlation id. *)
Definition initial_state (w : World) : State :=
  mkState ∅ ∅ [] ∅ w.


(** Every health gauge of the store reads 0 or 1. *)
Definition health_binary (st : State) : Prop :=
  ∀ rid r, heap st !! rid = Some r → health_status r = 0 ∨ health_status r = 1.

(** The count of a counter under a tuple of label values (0 when the tuple
    was never used). *)
Definition count (c : Counter) (key : list string) : nat :=
  default O (values c !! key).

Definition error_count (r : MetricsRegistry) (error_type component : string) : nat :=
  default O (errors_total r !! (error_type, component)).

(** The listeners a list of tracked servers asks to stop: those whose handle
    has a [shutdown] attribute. *)
Definition stoppable (servers : list (string * option (nat * bool))) : list nat :=
  omap (λ '(_, srv), match srv with Some (i, true) => Some i | _ => None end) servers.

(** ** Sample data *)

(** Capabilities for the examples: the [n]-th identifier is [n] in decimal,
    [int] knows one literal, the sink accepts identifiers, every listener
    comes with a handle that has (or lacks) [shutdown], and the names
    inherited from [object] are those that start with two underscores. *)
Definition sample_externals (has_shutdown : bool) : Externals :=
  {| uuid4_hex12 := λ n, pretty n;
     py_int := λ s, if String.eqb s "9100" then Some 9100 else None;
     sink_valid_name := re_match_identifier;
     http_server_value := λ _, Some has_shutdown;
     py_object_attr := String.prefix "__" |}.

Definition sample_world (busy : gset Z) : World :=
  mkWorld busy [] [] None 1700000000 O [].

(** A function that does nothing, and one that raises. *)
Definition noop : pyfunc := mkFunc "noop" (λ _ _ _, ret PNone).

(** A process in which ports 9090 and 9091 are taken and [setup_metrics] has
    run once, for the service [svc], with its server started. *)
Definition sample_started (has_shutdown : bool) : State :=
  snd (@setup_metrics (sample_externals has_shutdown) "svc" None None true
         (initial_state (sample_world {[9090; 9091]}))).

(** ** Vocabulary of the statements about the polling wait *)

Definition total_duration (trace : list suspension) : Z :=
  foldr (λ s acc, duration s + acc) 0 trace.




(** ** Invariants of the process state *)

(** A computation keeps a property of the state, however it ends. *)
Definition preserves {A : Type} (P : State → Prop) (c : M A) : Prop :=
  ∀ st, P st → P (snd (c st)).

(** An in-place change of a registry object that leaves the health gauge
    alone or sets it to 0 or to 1. *)
Definition gauge_safe (g : MetricsRegistry → MetricsRegistry) : Prop :=
  ∀ r, health_status (g r) = health_status r
       ∨ health_status (g r) = 0 ∨ health_status (g r) = 1.

(** Properties of the state that survive the elementary steps taken on
    existing objects: changes of the world, of the correlation slots and of
    [_metrics_servers], and gauge-safe changes of an object. *)
Class Stable (P : State → Prop) : Prop := {
  stable_world : ∀ f st, P st → P (with_world f st);
  stable_context : ∀ f st, P st → P (with_context f st);
  stable_servers : ∀ f st, P st → P (with_servers f st);
  stable_mutate : ∀ g rid st, gauge_safe g → P st → P (with_heap (alter g rid) st)
}.

(** Those that also survive a new object with health 1 under an unused
    reference and a new entry of [_service_registries] under an unused name. *)
Class StableAlloc (P : State → Prop) : Prop := {
  stable_base : Stable P;
  stable_alloc : ∀ rid r st,
    heap st !! rid = None → health_status r = 1 → P st → P (with_heap (<[rid := r]>) st);
  stable_register : ∀ name rid st,
    _service_registries st !! name = None → P st →
    P (with_registries (<[name := rid]>) st)
}.
#[global] Existing Instance stable_base.

(** * Further vocabulary *)

(** Every character of the string is in [[a-zA-Z0-9_]]. *)
Fixpoint all_ident_chars (s : string) : bool :=
  match s with
  | EmptyString => true
  | String c rest => is_ident_char c && all_ident_chars rest
  end.

(** [k in d] on a dictionary in insertion order. *)
Definition has_key {A : Type} (d : list (string * A)) (k : string) : bool :=
  existsb (String.eqb k) (map fst d).

(** [n] calls of [record_error] in a row. *)
Fixpoint record_errors (n : nat) (rid : nat) (error_type component : string) : M unit :=
  match n with
  | O => ret tt
  | S n' => record_error rid error_type component ;;
            record_errors n' rid error_type component
  end.


(** A process with a registry for [svc], built without a server start, in
    which ports 9090 and 9091 are taken. *)
Definition sample_unstarted (E : Externals) : State :=
  snd (@setup_metrics E "svc" None None false
         (initial_state (sample_world {[9090; 9091]}))).

(** A process with a registry for [my-svc-1] that was given a port mapping
    and no port, built without a server start. *)
Definition sample_mapped : State :=
  snd (@setup_metrics (sample_externals true) "my-svc-1" None
         (Some [("api", 9100); ("svc", 9300); ("my", 9400)]) false
         (initial_state (sample_world ∅))).

(** The wrapper's lookup finds no registry: the first positional argument is
    a string under which none is cached; or it is no string (or there is
    none) and the [service_name] keyword is missing, is a hashable value that
    is no string, or is a string under which none is cached. *)
Definition registry_absent (args : list pyval) (kwargs : gmap string pyval)
    (st : State) : Prop :=
  match args with
  | PStr s :: _ => _service_registries st !! s = None
  | _ => match kwargs !! "service_name" with
         | Some (PStr s) => _service_registries st !! s = None
         | Some PUnhashable => False
         | _ => True
         end
  end.


(** ** libs/observability/logging.py: the project root

    An absolute POSIX path is the list of its components below the root, the
    root being the empty list; [os.getcwd()] gives such a path.
    [os.path.dirname] drops the last component and leaves the root as it is;
    [os.path.join(current, marker)] adds one. *)
Definition path : Type := list string.

Definition dirname (p : path) : path := removelast p.

Definition markers : list string := ["pyproject.toml"; "requirements.txt"; ".git"; "libs"].

Section ProjectRoot.
(** [os.path.exists] *)
Variable path_exists : path → bool.

(** The inner loop [for marker in markers]: some marker exists in [current]. *)
Definition has_marker (current : path) : bool :=
  existsb (λ marker, path_exists (current ++ [marker])%list) markers.

(** [n] rounds of the outer loop from [current]: the directory returned from
    inside the loop, or [None] when the loop is left by [break] or runs out. *)
Fixpoint find_root_loop (n : nat) (current : path) : option path :=
  match n with
  | O => None
  | S n' =>
      if has_marker current then Some current
      else
        let parent := dirname current in
        if bool_decide (parent = current) then None
        else find_root_loop n' parent
  end.

Definition _find_project_root (start_dir : path) : path :=
  default start_dir (find_root_loop 10 start_dir).
End ProjectRoot.

(** The directory [k] levels above [p] (the root, from the root on). *)
Definition ancestor (k : nat) (p : path) : path := Nat.iter k dirname p.

(** ** libs/observability/decorators.py: [log_errors]

    [log_errors(func)], [qualname] being [func.__qualname__], which is no
    field of [pyfunc].  [functools.wraps] gives the wrapper the [__name__] of
    the function.  The record handed to the logger is kept as its level and
    message; the fields bound to it (the error text, the traceback, the
    counts of arguments) are not. *)
Definition log_errors (qualname : string) (func : pyfunc) : pyfunc :=
  mkFunc (__name__ func)
    (λ t args kwargs st,
       match call func t args kwargs st with
       | (Return v, st') => (Return v, st')
       | (Raise e, st') =>
           if exn_is_Exception e
           then (logger ERROR ("Error in " +:+ qualname) ;; raise e) st'
           else (Raise e, st')
       end).

(** Two states that differ in the log at most. *)
Definition same_but_log (st st' : State) : Prop :=
  heap st = heap st'
  ∧ _service_registries st = _service_registries st'
  ∧ _metrics_servers st = _metrics_servers st'
  ∧ _correlation_context st = _correlation_context st'
  ∧ occupied (world st) = occupied (world st')
  ∧ listeners (world st) = listeners (world st')
  ∧ stopped (world st) = stopped (world st')
  ∧ env_METRICS_PORT (world st) = env_METRICS_PORT (world st')
  ∧ clock (world st) = clock (world st')
  ∧ uuid_calls (world st) = uuid_calls (world st').

(** What [log_errors] logs for a call made by the metrics wrapper in the
    state [st]: one record when the wrapper's lookup returns and the function
    then raises an exception deriving from [Exception], none otherwise. *)
Definition logged_error (qualname : string) (func : pyfunc) (t : nat)
    (args : list pyval) (kwargs : gmap string pyval) (st : State)
    : list (level * string) :=
  match fst (lookup_registry args kwargs st), fst (call func t args kwargs st) with
  | Return _, Raise e =>
      if exn_is_Exception e then [(ERROR, "Error in " +:+ qualname)] else []
  | _, _ => []
  end.

(** ** libs/db/base.py: [ClickHouseRepository]

    The client is what the repository is given ([Any] in the source): a
    state of type [C] and [client.execute(query, params)], which returns rows
    of cells or raises.  [table_name] is the attribute of the repository. *)
Module ClickHouseRepository.
Section Methods.
Context {V C : Type}.

(** The second argument of [client.execute]: none, a dictionary, or a list
    of records. *)
Inductive exec_params : Type :=
  | NoParams
  | DictParams (d : pydict V)
  | ListParams (l : list (pydict V)).

Variable execute : string → exec_params → C → result (list (list V)) * C.
Variable table_name : string.

Definition query (conditions : pydict V) : C → result (list (list V)) * C :=
  let where_clause :=
    join " AND " (map (λ k, k +:+ " = %(" +:+ k +:+ ")s") (keys conditions)) in
  let query := "SELECT * FROM " +:+ table_name +:+ " WHERE " +:+ where_clause in
  execute query (DictParams conditions).

(** [count]: the first cell of the first row, or the number [0] when there
    is no row; [conditions] is falsy when it is [None] or empty. *)
Definition count (conditions : option (pydict V)) : C → result (V + Z) * C :=
  λ c,
    let '(r, c') :=
      match conditions with
      | Some ((_ :: _) as conds) =>
          let where_clause :=
            join " AND " (map (λ k, k +:+ " = %(" +:+ k +:+ ")s") (keys conds)) in
          let query := "SELECT count() FROM " +:+ table_name +:+ " WHERE "
                       +:+ where_clause in
          execute query (DictParams conds) c
      | _ =>
          let query := "SELECT count() FROM " +:+ table_name in
          execute query NoParams c
      end in
    (rbind r (λ result,
       match result with
       | [] => Return (inr 0)
       | [] :: _ => Raise (Exn "IndexError" true "index out of range")
       | (v :: _) :: _ => Return (inl v)
       end), c').
End Methods.
End ClickHouseRepository.

(** ** Consistency of the process state *)

(** An in-place change of a registry object that leaves its name, its port
    and its server handle alone. *)
Definition identity_safe (g : MetricsRegistry → MetricsRegistry) : Prop :=
  ∀ r, service_name (g r) = service_name r ∧ port (g r) = port r
       ∧ server (g r) = server r.

(** What holds of the registries, the listeners and the module globals
    together: a cached name leads to a live object of that name; a server
    handle held by an object is that of a listener on the port the object
    records, and no two objects hold the handle of the same listener; the
    listeners are on distinct ports, which are taken; the tracked servers
    are under cached names and are handles of listeners; what was stopped is
    a listener. *)
Record well_formed (st : State) : Prop := mkWellFormed {
  wf_cache : ∀ name rid,
    _service_registries st !! name = Some rid →
    ∃ r, heap st !! rid = Some r ∧ service_name r = name;
  wf_server : ∀ rid r i b,
    heap st !! rid = Some r → server r = Some (i, b) →
    ∃ q, port r = Some q ∧ listeners (world st) !! i = Some q;
  wf_handles : ∀ rid rid' r r' i b b',
    heap st !! rid = Some r → heap st !! rid' = Some r' →
    server r = Some (i, b) → server r' = Some (i, b') → rid = rid';
  wf_distinct : NoDup (listeners (world st));
  wf_taken : ∀ q, q ∈ listeners (world st) → q ∈ occupied (world st);
  wf_tracked : ∀ name srv,
    In (name, srv) (_metrics_servers st) →
    is_Some (_service_registries st !! name)
    ∧ ∀ i b, srv = Some (i, b) → (i < length (listeners (world st)))%nat;
  wf_stopped : ∀ i,
    In i (stopped (world st)) → (i < length (listeners (world st)))%nat
}.

(** ** Growth of the registries *)

(** The object [r'] is the object [r] later on: same name, no metric name
    lost, no error count lower, and every counter attached to [r] still
    attached, with the same label names and no count lower. *)
Definition registry_le (r r' : MetricsRegistry) : Prop :=
  service_name r' = service_name r
  ∧ registry r ⊆ registry r'
  ∧ (∀ error_type component,
       (error_count r error_type component ≤ error_count r' error_type component)%nat)
  ∧ (∀ name c, attrs r !! name = Some c →
       ∃ c', attrs r' !! name = Some c' ∧ labelnames c' = labelnames c
             ∧ ∀ key, (count c key ≤ count c' key)%nat).

(** Every object of [st] is there in [st'], grown, and every cached name
    leads where it led. *)
Definition grows (st st' : State) : Prop :=
  (∀ rid r, heap st !! rid = Some r →
     ∃ r', heap st' !! rid = Some r' ∧ registry_le r r')
  ∧ (∀ name rid, _service_registries st !! name = Some rid →
       _service_registries st' !! name = Some rid).

(** A computation under which the registries only grow, however it ends. *)
Definition only_grows {A : Type} (c : M A) : Prop :=
  ∀ st, grows st (snd (c st)).

(** * Properties *)

(** ** Identifier validation and the query builders *)

Lemma is_ident_char_not_newline c : is_ident_char c = true → c ≠ newline.
Proof. intros Hc ->. vm_compute in Hc. discriminate. Qed.

(** A string that passes the tail of the pattern consists of identifier
    characters, except possibly for one final newline. *)
Lemma match_ident_rest_chars s c :
  match_ident_rest s = true → In c (list_ascii_of_string s) →
  is_ident_char c = true ∨ c = newline.
Proof.
  induction s as [|a s IH]; simpl; [tauto|].
  intros Hm [<-|Hin].
  - destruct (is_ident_char a); [by left|].
    apply andb_true_iff in Hm as [Ha _]. right. by apply Ascii.eqb_eq.
  - destruct (is_ident_char a); [by apply IH|].
    apply andb_true_iff in Hm as [_ Hs]. apply String.eqb_eq in Hs. by subst.
Qed.

Lemma re_match_identifier_chars s c :
  re_match_identifier s = true → In c (list_ascii_of_string s) →
  is_ident_char c = true ∨ c = newline.
Proof.
  destruct s as [|a s]; simpl; [discriminate|].
  intros [Ha Hm]%andb_true_iff [<-|Hin].
  - left. unfold is_ident_char. by rewrite Ha.
  - by eapply match_ident_rest_chars.
Qed.

Lemma digit_not_ident_start c : ascii_between 48 57 c = true → is_ident_start c = false.
Proof.
  destruct c as [[] [] [] [] [] [] [] []]; vm_compute; intros; congruence.
Qed.

Lemma sanitize_identifier_raises s :
  re_match_identifier s = false →
  sanitize_identifier s = Raise (ValueError (invalid_identifier_msg s)).
Proof. unfold sanitize_identifier. by intros ->. Qed.

Lemma sanitize_identifier_returns s :
  re_match_identifier s = true → sanitize_identifier s = Return s.
Proof. unfold sanitize_identifier. by intros ->. Qed.

Lemma rejects_char (c : ascii) s :
  is_ident_char c = false → c ≠ newline → In c (list_ascii_of_string s) →
  re_match_identifier s = false.
Proof.
  intros Hc Hn Hin. destruct (re_match_identifier s) eqn:Hm; [|done].
  destruct (re_match_identifier_chars s c Hm Hin); congruence.
Qed.

Lemma all_valid_dec l : all_valid l ∨ ∃ s, In s l ∧ re_match_identifier s = false.
Proof.
  induction l as [|a l [IH|(s & Hin & Hs)]].
  - left. intros ? [].
  - destruct (re_match_identifier a) eqn:Ha.
    + left. intros s [<-|Hin]; [done|by apply IH].
    + right. exists a. split; [by left|done].
  - right. exists s. split; [by right|done].
Qed.

Lemma rmap_sanitize_valid l : all_valid l → rmap sanitize_identifier l = Return l.
Proof.
  induction l as [|a l IH]; intros Hl; simpl; [done|].
  rewrite sanitize_identifier_returns by (apply Hl; by left). simpl.
  rewrite IH; [done|]. intros s Hs. apply Hl. by right.
Qed.

Lemma rmap_sanitize_invalid l s :
  In s l → re_match_identifier s = false →
  raises_invalid_identifier (rmap sanitize_identifier l).
Proof.
  induction l as [|a l IH]; intros Hin Hs; [destruct Hin|]. simpl.
  destruct (re_match_identifier a) eqn:Ha.
  - rewrite (sanitize_identifier_returns a Ha). simpl.
    destruct Hin as [->|Hin]; [congruence|].
    destruct (IH Hin Hs) as (s' & Hs' & ->). by exists s'.
  - rewrite (sanitize_identifier_raises a Ha). by exists a.
Qed.

Lemma sanitize_all_valid l : all_valid l → sanitize_all l = Return tt.
Proof.
  induction l as [|a l IH]; intros Hl; simpl; [done|].
  rewrite sanitize_identifier_returns by (apply Hl; by left). simpl.
  apply IH. intros s Hs. apply Hl. by right.
Qed.

Lemma sanitize_all_invalid l s :
  In s l → re_match_identifier s = false → raises_invalid_identifier (sanitize_all l).
Proof.
  induction l as [|a l IH]; intros Hin Hs; [destruct Hin|]. simpl.
  destruct (re_match_identifier a) eqn:Ha.
  - rewrite (sanitize_identifier_returns a Ha). simpl.
    destruct Hin as [->|Hin]; [congruence|]. by apply IH.
  - rewrite (sanitize_identifier_raises a Ha). by exists a.
Qed.

Lemma where_conditions_invalid dialect l s :
  In s l → re_match_identifier s = false →
  raises_invalid_identifier (where_conditions dialect l).
Proof.
  induction l as [|a l IH]; intros Hin Hs; [destruct Hin|]. simpl.
  destruct (re_match_identifier a) eqn:Ha.
  - rewrite (sanitize_identifier_returns a Ha). simpl.
    destruct Hin as [->|Hin]; [congruence|].
    destruct (IH Hin Hs) as (s' & Hs' & ->). by exists s'.
  - rewrite (sanitize_identifier_raises a Ha). by exists a.
Qed.

Lemma where_conditions_valid dialect l :
  all_valid l → ∃ cs, where_conditions dialect l = Return cs.
Proof.
  induction l as [|a l IH]; intros Hl; simpl; [by eexists|].
  rewrite sanitize_identifier_returns by (apply Hl; by left). simpl.
  destruct IH as [cs ->]; [intros s Hs; apply Hl; by right|]. by eexists.
Qed.

Lemma build_insert_query_invalid {V} table (data : pydict V) dialect s :
  In s (insert_identifiers table data) → re_match_identifier s = false →
  raises_invalid_identifier (build_insert_query table data dialect).
Proof.
  intros Hin Hs. unfold build_insert_query.
  destruct (re_match_identifier table) eqn:Ht.
  - rewrite (sanitize_identifier_returns _ Ht). simpl.
    destruct Hin as [->|Hin]; [congruence|].
    destruct (rmap_sanitize_invalid _ _ Hin Hs) as (s' & Hs' & ->). by exists s'.
  - rewrite (sanitize_identifier_raises _ Ht). by exists table.
Qed.

Lemma build_insert_query_dialect {V} table (data : pydict V) dialect :
  all_valid (insert_identifiers table data) → supported_insert_dialect dialect = false →
  build_insert_query table data dialect
  = Raise (ValueError ("Unsupported dialect: " +:+ dialect)).
Proof.
  intros Hv Hd. unfold build_insert_query.
  rewrite sanitize_identifier_returns by (apply Hv; by left). simpl.
  rewrite rmap_sanitize_valid by (intros s Hs; apply Hv; by right). simpl.
  unfold supported_insert_dialect in Hd.
  apply orb_false_iff in Hd as [Hd H4]. apply orb_false_iff in Hd as [Hd H3].
  apply orb_false_iff in Hd as [H1 H2]. by rewrite H1, H2, H3, H4.
Qed.

Lemma build_select_query_invalid {V} table columns (where_ : pydict V) limit order_by dialect s :
  In s (select_identifiers table columns where_ order_by) →
  re_match_identifier s = false →
  raises_invalid_identifier (build_select_query table columns where_ limit order_by dialect).
Proof.
  intros Hin Hs. unfold build_select_query.
  destruct (re_match_identifier table) eqn:Ht;
    [|rewrite (sanitize_identifier_raises _ Ht); by exists table].
  rewrite (sanitize_identifier_returns _ Ht). simpl.
  destruct Hin as [->|Hin]; [congruence|].
  destruct (all_valid_dec columns) as [Hc|(c & Hc1 & Hc2)].
  2:{ destruct (rmap_sanitize_invalid _ _ Hc1 Hc2) as (s' & Hs' & E).
      destruct columns as [|c0 columns]; [destruct Hc1|]. rewrite E. by exists s'. }
  apply in_app_or in Hin as [Hin|Hin]; [rewrite (Hc _ Hin) in Hs; discriminate|].
  assert (∃ cols, match columns with
                  | [] => Return "*"
                  | _ => rbind (rmap sanitize_identifier columns)
                               (λ cs, Return (join ", " cs))
                  end = Return cols) as [cols ->].
  { destruct columns; [by eexists|]. rewrite (rmap_sanitize_valid _ Hc). by eexists. }
  simpl.
  destruct (all_valid_dec (keys where_)) as [Hw|(c & Hw1 & Hw2)].
  2:{ destruct (where_conditions_invalid dialect _ _ Hw1 Hw2) as (s' & Hs' & E).
      destruct where_ as [|w0 where_]; [destruct Hw1|]. rewrite E. by exists s'. }
  apply in_app_or in Hin as [Hin|Hin]; [rewrite (Hw _ Hin) in Hs; discriminate|].
  assert (∃ q, match where_ with
               | [] => Return ("SELECT " +:+ cols +:+ " FROM " +:+ table)
               | _ => rbind (where_conditions dialect (keys where_)) (λ conditions,
                      Return (("SELECT " +:+ cols +:+ " FROM " +:+ table)
                              +:+ " WHERE " +:+ join " AND " conditions))
               end = Return q) as [q ->].
  { destruct where_; [by eexists|].
    destruct (where_conditions_valid dialect _ Hw) as [cs ->]. by eexists. }
  simpl. destruct order_by as [ob|]; [|destruct Hin].
  destruct (String.eqb ob ""); [destruct Hin|].
  destruct Hin as [->|[]]. rewrite (sanitize_identifier_raises _ Hs). by exists s.
Qed.

Lemma build_batch_insert_invalid {V} table (first : pydict V) rest dialect s :
  In s (insert_identifiers table first) → re_match_identifier s = false →
  raises_invalid_identifier (build_batch_insert table (first :: rest) dialect).
Proof.
  intros Hin Hs. unfold build_batch_insert.
  destruct (re_match_identifier table) eqn:Ht;
    [|rewrite (sanitize_identifier_raises _ Ht); by exists table].
  rewrite (sanitize_identifier_returns _ Ht). simpl.
  destruct Hin as [->|Hin]; [congruence|].
  destruct (sanitize_all_invalid _ _ Hin Hs) as (s' & Hs' & ->). by exists s'.
Qed.

Lemma where_conditions_other_dialect dialect l :
  String.eqb dialect "clickhouse" = false →
  where_conditions dialect l = where_conditions "postgres" l.
Proof.
  intros Hd. induction l as [|a l IH]; simpl; [done|]. by rewrite Hd, IH.
Qed.

(** C9, as stated, fails: with an empty record list [build_batch_insert]
    returns the pair of the empty string and the empty list although the
    table name is invalid and the dialect unknown, and [build_select_query]
    builds a query for an unknown dialect. *)
Lemma batch_insert_empty_is_silent :
  sanitize_identifier "bad name;"
    = Raise (ValueError (invalid_identifier_msg "bad name;"))
  ∧ build_batch_insert (V:=Z) "bad name;" [] "oracle" = Return ("", [])
  ∧ build_select_query (V:=Z) "users" ["id"] [("id", 1)] None None "oracle"
    = Return "SELECT id FROM users WHERE id = %s"
  ∧ build_batch_insert (V:=Z) "users" [[("id", 1)]] "oracle"
    = Return ("INSERT INTO users (id) VALUES (%s)", [ItemRow [1]]).
Proof. repeat split; reflexivity. Qed.

(** C9 (amended).  Identifier validation raises [ValueError] for every string
    that contains a semicolon or a space or starts with a digit, and returns
    [_col1] and [Table_Name] unchanged.  Each builder raises that error when
    one of the identifiers it validates is invalid: [build_insert_query] and
    [build_batch_insert] (on a non-empty record list) the table name and the
    keys of the (first) record, [build_select_query] the table name, the
    columns, the keys of the condition and a non-empty ordering column.  An
    unsupported dialect is an error in [build_insert_query] only: the two
    other builders treat every dialect but [clickhouse] alike.  An empty
    record list makes [build_batch_insert] return the empty query and the
    empty parameter list, whatever the table name and the dialect. *)
Theorem query_builder_errors {V : Type} :
  (∀ s, In ";"%char (list_ascii_of_string s) ∨ In " "%char (list_ascii_of_string s)
        ∨ (∃ c rest, s = String c rest ∧ ascii_between 48 57 c = true) →
        sanitize_identifier s = Raise (ValueError (invalid_identifier_msg s)))
  ∧ sanitize_identifier "_col1" = Return "_col1"
  ∧ sanitize_identifier "Table_Name" = Return "Table_Name"
  ∧ (∀ table (data : pydict V) dialect s,
       In s (insert_identifiers table data) → re_match_identifier s = false →
       raises_invalid_identifier (build_insert_query table data dialect))
  ∧ (∀ table (data : pydict V) dialect,
       all_valid (insert_identifiers table data) →
       supported_insert_dialect dialect = false →
       build_insert_query table data dialect
       = Raise (ValueError ("Unsupported dialect: " +:+ dialect)))
  ∧ (∀ table columns (where_ : pydict V) limit order_by dialect s,
       In s (select_identifiers table columns where_ order_by) →
       re_match_identifier s = false →
       raises_invalid_identifier
         (build_select_query table columns where_ limit order_by dialect))
  ∧ (∀ table columns (where_ : pydict V) limit order_by dialect,
       String.eqb dialect "clickhouse" = false →
       build_select_query table columns where_ limit order_by dialect
       = build_select_query table columns where_ limit order_by "postgres")
  ∧ (∀ table (first : pydict V) rest dialect s,
       In s (insert_identifiers table first) → re_match_identifier s = false →
       raises_invalid_identifier (build_batch_insert table (first :: rest) dialect))
  ∧ (∀ table (records : list (pydict V)) dialect,
       String.eqb dialect "clickhouse" = false →
       build_batch_insert table records dialect
       = build_batch_insert table records "postgres")
  ∧ (∀ table dialect,
       build_batch_insert (V:=V) table [] dialect = Return ("", [])).
Proof.
  split; [|repeat split; try reflexivity].
  - intros s [Hs|[Hs|(c & rest & -> & Hc)]]; apply sanitize_identifier_raises.
    + by apply (rejects_char ";"%char).
    + by apply (rejects_char " "%char).
    + simpl. by rewrite (digit_not_ident_start c Hc).
  - apply build_insert_query_invalid.
  - apply build_insert_query_dialect.
  - apply build_select_query_invalid.
  - intros table columns where_ limit order_by dialect Hd.
    unfold build_select_query.
    by rewrite (where_conditions_other_dialect dialect _ Hd).
  - apply build_batch_insert_invalid.
  - intros table records dialect Hd. unfold build_batch_insert. by rewrite Hd.
Qed.

Lemma query_builder_errors_witness :
  sanitize_identifier "1abc" = Raise (ValueError (invalid_identifier_msg "1abc"))
  ∧ sanitize_identifier "a;b" = Raise (ValueError (invalid_identifier_msg "a;b"))
  ∧ raises_invalid_identifier (build_insert_query (V:=Z) "users" [("na me", 1)] "mysql")
  ∧ build_insert_query (V:=Z) "users" [("id", 1)] "oracle"
    = Raise (ValueError "Unsupported dialect: oracle")
  ∧ raises_invalid_identifier
      (build_select_query (V:=Z) "users" ["id"] [] None (Some "id desc") "mysql")
  ∧ raises_invalid_identifier
      (build_batch_insert (V:=Z) "users" [[("1st", 1)]; []] "clickhouse").
Proof.
  destruct (@query_builder_errors Z) as (H1 & _ & _ & H4 & H5 & H6 & _ & H8 & _).
  split; [|split; [|split; [|split; [|split]]]].
  - apply H1. right. right. eexists _, _. split; reflexivity.
  - apply H1. left. simpl. tauto.
  - apply (H4 _ _ _ "na me"); [simpl; tauto|reflexivity].
  - apply (H5 "users" [("id", 1)] "oracle"); [|reflexivity].
    intros s [<-|[<-|[]]]; reflexivity.
  - apply (H6 _ _ _ _ _ _ "id desc"); [simpl; tauto|reflexivity].
  - apply (H8 _ _ _ _ "1st"); [simpl; tauto|reflexivity].
Defined.

(** ** Correlation ids *)

Section ObservabilityProperties.
Context `{Externals}.

Lemma correlation_prologue_returns t st :
  ∃ cid, correlation_prologue t st
         = (Return cid, snd (correlation_prologue t st))
    ∧ _correlation_context (snd (correlation_prologue t st)) !! t = Some (Some cid).
Proof.
  unfold correlation_prologue, bind, get_correlation_id. simpl.
  destruct (default None (_correlation_context st !! t)) as [c|]; simpl.
  - destruct (String.eqb c ""); simpl; eexists; (split; [reflexivity|]);
      simpl; apply lookup_insert_eq.
  - eexists; (split; [reflexivity|]); simpl; apply lookup_insert_eq.
Qed.

(** The prologue touches the thread's slot, the count of identifiers drawn,
    and nothing else. *)
Lemma correlation_prologue_frame t st :
  let st' := snd (correlation_prologue t st) in
  heap st' = heap st
  ∧ _service_registries st' = _service_registries st
  ∧ _metrics_servers st' = _metrics_servers st
  ∧ occupied (world st') = occupied (world st)
  ∧ listeners (world st') = listeners (world st)
  ∧ stopped (world st') = stopped (world st)
  ∧ log (world st') = log (world st).
Proof.
  unfold correlation_prologue, bind, get_correlation_id. simpl.
  destruct (default None (_correlation_context st !! t)) as [c|]; simpl;
    [destruct (String.eqb c "")|]; simpl; repeat split.
Qed.

Lemma manage_metrics_unfold success_name failure_name func t args kwargs st :
  manage_metrics success_name failure_name func t args kwargs st
  = let '(res, metrics_registry, st1) :=
      try_block success_name func t args kwargs (snd (correlation_prologue t st)) in
    let '(res', st2) :=
      match res with
      | Raise e =>
          if exn_is_Exception e
          then except_clause failure_name func metrics_registry e st1
          else (Raise e, st1)
      | Return v => (Return v, st1)
      end in
    (res', snd (set_correlation_id t None st2)).
Proof.
  unfold manage_metrics, bind at 1.
  destruct (correlation_prologue_returns t st) as (cid & E & _).
  rewrite E at 1. reflexivity.
Qed.

(** C5.  A correlation id that is set is read back on the same thread, the
    slots of the other threads being left alone; and when a call of a
    wrapped function is over, by a return or by an exception of any class,
    the thread reads no correlation id. *)
Theorem correlation_id_round_trip :
  (∀ t id st,
     fst (get_correlation_id t (snd (set_correlation_id t (Some id) st)))
     = Return (Some id))
  ∧ (∀ t t' id st, t ≠ t' →
     fst (get_correlation_id t' (snd (set_correlation_id t id st)))
     = fst (get_correlation_id t' st))
  ∧ (∀ success_name failure_name func t args kwargs st,
     fst (get_correlation_id t
            (snd (manage_metrics success_name failure_name func t args kwargs st)))
     = Return None).
Proof.
  split; [|split].
  - intros t id st. unfold get_correlation_id, set_correlation_id. simpl.
    by rewrite lookup_insert_eq.
  - intros t t' id st Hne. unfold get_correlation_id, set_correlation_id. simpl.
    by rewrite lookup_insert_ne.
  - intros success_name failure_name func t args kwargs st.
    rewrite manage_metrics_unfold.
    destruct (try_block _ _ _ _ _ _) as [[res reg] st1].
    destruct (match res with Raise _ => _ | Return _ => _ end) as [res' st2].
    unfold get_correlation_id, set_correlation_id. simpl.
    by rewrite lookup_insert_eq.
Qed.

(** ** Invariants kept by every client program *)

Lemma preserves_ret {A} P (a : A) : preserves P (ret a).
Proof. by intros st. Qed.

Lemma preserves_raise {A} P e : preserves P (raise (A:=A) e).
Proof. by intros st. Qed.

Lemma preserves_bind {A B} P (c : M A) (k : A → M B) :
  preserves P c → (∀ a, preserves P (k a)) → preserves P (bind c k).
Proof.
  intros Hc Hk st HP. unfold bind. specialize (Hc st HP).
  destruct (c st) as [[a|e] st']; simpl in *; [by apply Hk|done].
Qed.

Lemma preserves_deref P rid : preserves P (deref rid).
Proof. intros st HP. unfold deref. by destruct (heap st !! rid). Qed.

Section StableInvariants.
Context (P : State → Prop) `{!Stable P}.

Lemma preserves_logger l msg : preserves P (logger l msg).
Proof. intros st HP. by apply stable_world. Qed.

Lemma preserves_mutate rid g : gauge_safe g → preserves P (mutate rid g).
Proof. intros Hg st HP. by apply stable_mutate. Qed.

Lemma preserves_set_correlation_id t cid : preserves P (set_correlation_id t cid).
Proof. intros st HP. by apply stable_context. Qed.

Lemma preserves_generate_correlation_id : preserves P generate_correlation_id.
Proof. intros st HP. by apply stable_world. Qed.

Lemma preserves_get_correlation_id t : preserves P (get_correlation_id t).
Proof. by intros st HP. Qed.

Lemma preserves_is_port_available p : preserves P (_is_port_available p).
Proof. intros st HP. unfold _is_port_available. by destruct (valid_port p). Qed.

Lemma preserves_start_http_server p : preserves P (start_http_server p).
Proof.
  intros st HP. unfold start_http_server.
  destruct (negb (valid_port p)); [done|]. case_bool_decide; simpl; [done|].
  by apply stable_world.
Qed.

Lemma preserves_find_port_loop n start p : preserves P (find_port_loop n start p).
Proof.
  revert p. induction n as [|n IH]; intros p; simpl; [apply preserves_raise|].
  apply preserves_bind; [apply preserves_is_port_available|].
  intros []; [apply preserves_ret|apply IH].
Qed.

Lemma preserves_get_default_port rid : preserves P (_get_default_port rid).
Proof.
  unfold _get_default_port. apply preserves_bind; [apply preserves_deref|].
  intros r st HP. destruct (env_METRICS_PORT (world st)) as [s|]; [|done].
  destruct (negb (String.eqb s "")); [|done]. by destruct (py_int s).
Qed.

Lemma preserves_resolve_target_port rid port_arg :
  preserves P (resolve_target_port rid port_arg).
Proof.
  unfold resolve_target_port. apply preserves_bind; [apply preserves_deref|].
  intros r. destruct (truthy_port port_arg); [apply preserves_ret|].
  destruct (truthy_port (port r)); [apply preserves_ret|].
  apply preserves_get_default_port.
Qed.

Lemma gauge_safe_set_port_server p s : gauge_safe (set_port_server p s).
Proof. intros r. by left. Qed.

Lemma gauge_safe_set_health b : gauge_safe (set_health (if b : bool then 1 else 0)).
Proof. intros r. right. destruct b; simpl; tauto. Qed.

Lemma preserves_start_metrics_server rid port_arg :
  preserves P (start_metrics_server rid port_arg).
Proof.
  unfold start_metrics_server. apply preserves_bind; [apply preserves_deref|].
  intros r. destruct (server r).
  { apply preserves_bind; [apply preserves_logger|intros; apply preserves_ret]. }
  apply preserves_bind; [apply preserves_resolve_target_port|]. intros p.
  apply preserves_bind; [apply preserves_is_port_available|]. intros free.
  apply preserves_bind.
  { destruct free; simpl; [apply preserves_ret|].
    apply preserves_bind; [apply preserves_logger|].
    intros _. apply preserves_find_port_loop. }
  intros q. apply preserves_bind; [apply preserves_start_http_server|]. intros srv.
  apply preserves_bind; [apply preserves_mutate, gauge_safe_set_port_server|].
  intros _. apply preserves_bind; [apply preserves_logger|].
  intros _. apply preserves_bind; [apply preserves_logger|].
  intros _. apply preserves_ret.
Qed.

Lemma preserves_create_counter rid name description labels :
  preserves P (create_counter rid name description labels).
Proof.
  unfold create_counter. apply preserves_bind; [apply preserves_deref|].
  intros r. destruct (negb (sink_valid_name name)); [apply preserves_raise|].
  case_bool_decide; [apply preserves_raise|].
  apply preserves_bind; [|intros; apply preserves_ret].
  apply preserves_mutate. intros r'. by left.
Qed.

Lemma preserves_record_error rid error_type component :
  preserves P (record_error rid error_type component).
Proof. apply preserves_mutate. intros r. by left. Qed.

Lemma preserves_set_health_status rid healthy :
  preserves P (set_health_status rid healthy).
Proof. apply preserves_mutate, gauge_safe_set_health. Qed.

Lemma preserves_shutdown_loop servers : preserves P (shutdown_loop servers).
Proof.
  induction servers as [|[name srv] servers IH]; simpl; [apply preserves_ret|].
  apply preserves_bind.
  { destruct srv as [[i []]|]; try apply preserves_ret.
    intros st HP. by apply stable_world. }
  intros _. apply preserves_bind; [apply preserves_logger|by intros].
Qed.

Lemma preserves_shutdown_metrics_servers : preserves P shutdown_metrics_servers.
Proof.
  intros st HP. unfold shutdown_metrics_servers. revert st HP.
  intros st. generalize (_metrics_servers st). intros servers. revert st.
  apply preserves_bind; [apply preserves_shutdown_loop|].
  intros _ st' HP'. by apply stable_servers.
Qed.

Lemma preserves_getattr_labels_inc rid name : preserves P (getattr_labels_inc rid name).
Proof.
  unfold getattr_labels_inc. apply preserves_bind; [apply preserves_deref|].
  intros r. destruct (attrs r !! name) as [c|].
  - destruct (labels_inc _ c); [|apply preserves_raise].
    apply preserves_mutate. intros r'. by left.
  - destruct (String.eqb name "errors_total"); [apply preserves_raise|].
    case_bool_decide; apply preserves_raise.
Qed.

Lemma preserves_record_success success_name func rid :
  preserves P (record_success success_name func rid).
Proof.
  unfold record_success. apply preserves_bind; [apply preserves_deref|].
  intros r. apply preserves_bind.
  { destruct (negb (hasattr r success_name)); [|apply preserves_ret].
    apply preserves_bind; [apply preserves_create_counter|].
    intros c. apply preserves_mutate. intros r'. by left. }
  intros _. apply preserves_bind; [apply preserves_getattr_labels_inc|].
  intros _. apply preserves_bind; [apply preserves_set_health_status|].
  intros _. apply preserves_logger.
Qed.

Lemma preserves_lookup_registry args kwargs : preserves P (lookup_registry args kwargs).
Proof.
  assert (∀ v, preserves P (get_metrics_registry v)) as Hget.
  { intros v st HP. by destruct v. }
  unfold lookup_registry. destruct args as [|[] args]; try done;
    destruct (kwargs !! "service_name"); by try apply preserves_ret.
Qed.

Lemma preserves_except_clause failure_name func reg e :
  preserves P (except_clause failure_name func reg e).
Proof.
  unfold except_clause. destruct reg as [rid|]; [|apply preserves_raise].
  apply preserves_bind; [apply preserves_record_error|].
  intros _. apply preserves_bind; [apply preserves_set_health_status|].
  intros _. apply preserves_bind; [apply preserves_logger|].
  intros _. apply preserves_raise.
Qed.

Lemma preserves_correlation_prologue t : preserves P (correlation_prologue t).
Proof.
  unfold correlation_prologue.
  apply preserves_bind; [apply preserves_get_correlation_id|].
  intros cur. apply preserves_bind.
  { destruct cur as [c|]; [destruct (String.eqb c "")|];
      by first [apply preserves_generate_correlation_id|apply preserves_ret]. }
  intros cid. apply preserves_bind; [apply preserves_set_correlation_id|].
  intros _. apply preserves_ret.
Qed.

Lemma try_block_keeps success_name func t args kwargs st :
  preserves P (call func t args kwargs) → P st →
  P (snd (try_block success_name func t args kwargs st)).
Proof.
  intros Hf HP. unfold try_block.
  pose proof (preserves_lookup_registry args kwargs st HP) as HP1.
  destruct (lookup_registry args kwargs st) as [[[rid|]|e] st1]; simpl in *; [| |done].
  - pose proof (Hf st1 HP1) as HP2.
    destruct (call func t args kwargs st1) as [[v|e] st2]; simpl in *; [|done].
    pose proof (preserves_record_success success_name func rid st2 HP2) as HP3.
    by destruct (record_success success_name func rid st2) as [[]].
  - pose proof (Hf st1 HP1) as HP2.
    by destruct (call func t args kwargs st1).
Qed.

Lemma preserves_manage_metrics success_name failure_name func t args kwargs :
  preserves P (call func t args kwargs) →
  preserves P (manage_metrics success_name failure_name func t args kwargs).
Proof.
  intros Hf st HP. rewrite manage_metrics_unfold.
  pose proof (preserves_correlation_prologue t st HP) as HP0.
  pose proof (try_block_keeps success_name func t args kwargs _ Hf HP0) as HP1.
  destruct (try_block _ _ _ _ _ _) as [[res reg] st1]. simpl in HP1.
  destruct res as [v|e]; simpl.
  - by apply stable_context.
  - destruct (exn_is_Exception e); simpl; [|by apply stable_context].
    pose proof (preserves_except_clause failure_name func reg e st1 HP1) as HP2.
    destruct (except_clause failure_name func reg e st1) as [res' st2].
    by apply stable_context.
Qed.

End StableInvariants.

Section AllocInvariants.
Context (P : State → Prop) `{!StableAlloc P}.

Lemma preserves_new_MetricsRegistry name port_arg port_mapping label_extractor :
  preserves P (new_MetricsRegistry name port_arg port_mapping label_extractor).
Proof.
  intros st HP. unfold new_MetricsRegistry. simpl.
  apply stable_alloc; [|done|done].
  apply not_elem_of_dom, is_fresh.
Qed.

Lemma preserves_setup_metrics name port_arg port_mapping start_server :
  preserves P (setup_metrics name port_arg port_mapping start_server).
Proof.
  intros st HP. unfold setup_metrics.
  destruct (_service_registries st !! name) as [rid|] eqn:Hc.
  { revert st HP Hc. intros st HP _. revert st HP.
    apply preserves_bind; [apply (preserves_logger P)|intros; apply preserves_ret]. }
  unfold bind at 1.
  pose proof (preserves_new_MetricsRegistry name port_arg port_mapping None st HP) as HP1.
  unfold new_MetricsRegistry in *. simpl in *.
  set (st1 := with_heap _ st) in *.
  unfold bind at 1. simpl.
  assert (P (with_registries (<[name := fresh (dom (heap st))]>) st1)) as HP2.
  { by apply stable_register. }
  revert HP2. generalize (with_registries (<[name := fresh (dom (heap st))]>) st1).
  generalize (fresh (dom (heap st))). intros rid.
  apply preserves_bind.
  { destruct start_server; [|apply preserves_ret].
    apply preserves_bind; [apply (preserves_start_metrics_server P)|].
    intros []; [|apply preserves_ret].
    apply preserves_bind; [apply preserves_deref|].
    intros r st' HP'. by apply stable_servers. }
  intros _. apply preserves_bind; [apply (preserves_logger P)|intros; apply preserves_ret].
Qed.

Lemma preserves_exec t p : preserves P (exec t p).
Proof.
  revert t. induction p; intros tid; simpl.
  - apply preserves_ret.
  - apply preserves_bind; [apply IHp1|intros; apply IHp2].
  - apply preserves_raise.
  - apply preserves_bind; [apply preserves_setup_metrics|intros; apply preserves_ret].
  - apply preserves_bind; [apply preserves_new_MetricsRegistry|intros; apply preserves_ret].
  - apply preserves_bind; [apply (preserves_start_metrics_server P)|intros; apply preserves_ret].
  - apply preserves_bind; [apply (preserves_create_counter P)|intros; apply preserves_ret].
  - apply preserves_bind; [apply (preserves_record_error P)|intros; apply preserves_ret].
  - apply preserves_bind; [apply (preserves_set_health_status P)|intros; apply preserves_ret].
  - apply preserves_bind; [apply (preserves_shutdown_metrics_servers P)|intros; apply preserves_ret].
  - apply preserves_bind; [apply (preserves_set_correlation_id P)|intros; apply preserves_ret].
  - apply (preserves_manage_metrics P). simpl.
    apply preserves_bind; [apply IHp|intros; apply preserves_ret].
Qed.

End AllocInvariants.

#[local] Instance health_binary_stable : StableAlloc health_binary.
Proof.
  split; [split|..]; try done.
  - intros g rid st Hg HP rid' r'. simpl. rewrite lookup_alter.
    case_decide as Hd; [|apply HP]. subst rid'.
    destruct (heap st !! rid) as [r|] eqn:Hr; simpl; [|done].
    intros [= <-]. destruct (Hg r) as [->|Hr']; [by eapply HP|done].
  - intros rid r st Hfresh Hr HP rid' r'. simpl. rewrite lookup_insert.
    case_decide as Hd; [|apply HP]. intros [= <-]. by right.
Qed.

#[local] Instance cache_entry_stable name rid :
  StableAlloc (λ st, _service_registries st !! name = Some rid).
Proof.
  split; [split|..]; try done.
  intros name' rid' st Hnone Hsome. simpl.
  rewrite lookup_insert_ne; [done|]. intros ->. congruence.
Qed.

#[local] Instance cache_and_object_stable (C : gmap string nat) rid :
  Stable (λ st, _service_registries st = C ∧ is_Some (heap st !! rid)).
Proof.
  split; try done.
  intros g rid' st _ [HC Hr]. split; [done|]. simpl.
  rewrite lookup_alter. case_decide; [subst|done].
  destruct Hr as [r ->]. by eexists.
Qed.

(** ** The health gauge *)

(** C10.  A registry object as [MetricsRegistry(...)] leaves it has its health
    gauge at 1; [set_health_status] writes 1 for [True] and 0 for [False];
    and in every state a client program reaches from the start of the
    process, the health gauge of every registry reads 0 or 1. *)
Theorem health_gauge_binary :
  (∀ name port_arg port_mapping label_extractor st,
     ∃ rid r,
       new_MetricsRegistry name port_arg port_mapping label_extractor st
       = (Return rid, with_heap (<[rid := r]>) st)
       ∧ heap st !! rid = None ∧ health_status r = 1)
  ∧ (∀ rid healthy r st, heap st !! rid = Some r →
     ∃ st', set_health_status rid healthy st = (Return tt, st')
       ∧ heap st' !! rid = Some (set_health (if healthy then 1 else 0) r)
       ∧ health_status (set_health (if healthy then 1 else 0) r)
         = (if healthy then 1 else 0))
  ∧ (∀ t p st, health_binary st → health_binary (snd (exec t p st)))
  ∧ (∀ w t p, health_binary (snd (exec t p (initial_state w)))).
Proof.
  split; [|split; [|split]].
  - intros name port_arg port_mapping label_extractor st.
    eexists _, _. split; [reflexivity|]. split; [|reflexivity].
    apply not_elem_of_dom, is_fresh.
  - intros rid healthy r st Hr. eexists. split; [reflexivity|]. simpl.
    rewrite lookup_alter_eq, Hr. by destruct healthy.
  - intros t p. apply (preserves_exec health_binary).
  - intros w t p. apply (preserves_exec health_binary). intros rid r. simpl.
    by rewrite lookup_empty.
Qed.

(** ** The registry cache *)

Lemma setup_metrics_new_outcome name port_arg port_mapping start_server st :
  _service_registries st !! name = None →
  let rid := fresh (dom (heap st)) in
  let res := fst (setup_metrics name port_arg port_mapping start_server st) in
  res = Return rid ∨ (start_server = true ∧ ∃ e, res = Raise e).
Proof.
  intros Hnone. unfold setup_metrics. rewrite Hnone.
  unfold bind at 1. unfold new_MetricsRegistry at 1. unfold bind at 1. simpl.
  unfold bind. destruct start_server; simpl; [|by left].
  destruct (start_metrics_server _ None _) as [[[]|e] st1]; simpl;
    [|by left|right; eauto].
  destruct (deref _ st1) as [[r|e] st2]; simpl; [by left|right; eauto].
Qed.

Lemma setup_metrics_new_state name port_arg port_mapping start_server st :
  _service_registries st !! name = None →
  let rid := fresh (dom (heap st)) in
  let st' := snd (setup_metrics name port_arg port_mapping start_server st) in
  _service_registries st' = <[name := rid]> (_service_registries st)
  ∧ is_Some (heap st' !! rid).
Proof.
  intros Hnone rid.
  set (P := λ s : State, _service_registries s
              = <[name := rid]> (_service_registries st) ∧ is_Some (heap s !! rid)).
  change (P (snd (setup_metrics name port_arg port_mapping start_server st))).
  unfold setup_metrics. rewrite Hnone.
  unfold bind at 1. unfold new_MetricsRegistry at 1. unfold bind at 1. simpl.
  fold rid.
  match goal with |- P (snd (?c ?s)) =>
    assert (P s) as HP2; [|revert HP2; generalize s; change (preserves P c)] end.
  { split; [done|]. simpl. rewrite lookup_insert_eq. by eexists. }
  apply preserves_bind.
  { destruct start_server; [|apply preserves_ret].
    apply preserves_bind; [apply (preserves_start_metrics_server P)|].
    intros []; [|apply preserves_ret].
    apply preserves_bind; [apply preserves_deref|].
    intros r s Hs. by apply (stable_servers (P:=P)). }
  intros _. apply preserves_bind; [apply (preserves_logger P)|intros; apply preserves_ret].
Qed.

(** C1.  A first [setup_metrics] for a name builds a new registry object and
    enters it in [_service_registries] under that name, whether or not the
    start of its server then succeeds; a later call for the name returns the
    registry of the cache and changes nothing but the log (no object is
    built, no listener opened); and the entry of a name, once made, is the
    same after any further use of the module, so that a name has one
    registry for the life of the process. *)
Theorem setup_metrics_once :
  (∀ name port_arg port_mapping start_server st,
     _service_registries st !! name = None →
     ∃ rid, heap st !! rid = None ∧
       let '(res, st') := setup_metrics name port_arg port_mapping start_server st in
       _service_registries st' = <[name := rid]> (_service_registries st)
       ∧ is_Some (heap st' !! rid)
       ∧ (res = Return rid ∨ (start_server = true ∧ ∃ e, res = Raise e)))
  ∧ (∀ name rid port_arg port_mapping start_server st,
     _service_registries st !! name = Some rid →
     setup_metrics name port_arg port_mapping start_server st
     = (Return rid, with_world (add_log DEBUG ("Metrics already setup for " +:+ name)) st))
  ∧ (∀ name rid t p st,
     _service_registries st !! name = Some rid →
     _service_registries (snd (exec t p st)) !! name = Some rid).
Proof.
  split; [|split].
  - intros name port_arg port_mapping start_server st Hnone.
    exists (fresh (dom (heap st))). split; [apply not_elem_of_dom, is_fresh|].
    pose proof (setup_metrics_new_outcome name port_arg port_mapping start_server st Hnone).
    pose proof (setup_metrics_new_state name port_arg port_mapping start_server st Hnone)
      as [? ?].
    by destruct (setup_metrics name port_arg port_mapping start_server st).
  - intros name rid port_arg port_mapping start_server st Hsome.
    unfold setup_metrics. by rewrite Hsome.
  - intros name rid t p st.
    apply (preserves_exec (λ st, _service_registries st !! name = Some rid)).
Qed.

(** ** Starting the exposition server *)

Lemma get_default_port_pure rid st : snd (_get_default_port rid st) = st.
Proof.
  unfold _get_default_port, bind, deref. destruct (heap st !! rid); [|done].
  destruct (env_METRICS_PORT (world st)) as [s|]; [|done].
  destruct (negb (String.eqb s "")); [|done]. by destruct (py_int s).
Qed.

Lemma resolve_target_port_pure rid port_arg st :
  snd (resolve_target_port rid port_arg st) = st.
Proof.
  unfold resolve_target_port, bind, deref. destruct (heap st !! rid) as [r|]; [|done].
  destruct (truthy_port port_arg); [done|].
  destruct (truthy_port (port r)); [done|]. apply get_default_port_pure.
Qed.








(** ** Shutting the servers down *)

Lemma shutdown_loop_spec servers st :
  ∃ st',
    shutdown_loop servers st = (Return tt, st')
    ∧ stopped (world st') = (stopped (world st) ++ stoppable servers)%list
    ∧ heap st' = heap st
    ∧ _service_registries st' = _service_registries st
    ∧ _metrics_servers st' = _metrics_servers st
    ∧ _correlation_context st' = _correlation_context st
    ∧ listeners (world st') = listeners (world st)
    ∧ occupied (world st') = occupied (world st).
Proof.
  revert st. induction servers as [|[name srv] servers IH]; intros st.
  - exists st. simpl. rewrite app_nil_r. by repeat split.
  - simpl. unfold stoppable. simpl.
    destruct srv as [[i []]|]; unfold bind, logger; simpl;
      match goal with |- context [shutdown_loop servers ?s] =>
        destruct (IH s) as (st' & E & Hst & Hh & Hc & Hs & Hx & Hl & Ho) end;
      exists st'; rewrite E, Hst, Hh, Hc, Hs, Hx, Hl, Ho; simpl;
      rewrite <- ?app_assoc; by repeat split.
Qed.


(** ** The wrapper *)








End ObservabilityProperties.

(** ** The polling wait *)

Section WaitProperties.
Variable is_set : Z → bool.
Variables timeout check_interval : Z.
Hypothesis interval_positive : 0 < check_interval.


Lemma total_duration_nonneg l : 0 ≤ total_duration l.
Proof.
  induction l as [|s l IH]; [done|]. unfold total_duration in *. simpl.
  destruct s; simpl; lia.
Qed.






End WaitProperties.

(** With a check interval of zero and the flag clear, the loop never leaves:
    no amount of fuel gives a result. *)
Lemma wait_zero_interval_spins fuel now trace :
  wait_loop (λ _, false) fuel 1 0 0 now trace = None.
Proof.
  revert now trace. induction fuel as [|fuel IH]; intros now trace; [done|].
  simpl. apply IH.
Qed.

(** The two runs of the specification, in ticks of a millisecond: a timeout
    of two seconds polled every half second, the flag never set; and the
    same with the flag set 0.7 seconds after the call. *)
Lemma wait_times_out :
  async_wait_for_termination (flag_set_from None) 10 2000 500 0
  = Some (false, 2000, [AsyncSleep 500; AsyncSleep 500; AsyncSleep 500; AsyncSleep 500]).
Proof. reflexivity. Qed.

Lemma wait_sees_flag :
  async_wait_for_termination (flag_set_from (Some 700)) 10 2000 500 0
  = Some (true, 1000, [AsyncSleep 500; AsyncSleep 500]).
Proof. reflexivity. Qed.



(** ** Runs on sample data *)




(** A success metric named like an attribute the registry already has makes
    the wrapper raise after the wrapped function has returned, and the call
    is recorded as a failure. *)
Lemma success_name_clash :
  let out := @manage_metrics (sample_externals true) "port" "bad" noop 7%nat
               [PStr "svc"] ∅ (sample_started true) in
  fst out = Raise (AttributeError "object has no attribute 'labels'")
  ∧ (λ r, (error_count r "bad" "main", health_status r)) <$> heap (snd out) !! O
    = Some (1%nat, 0).
Proof. vm_compute. repeat split. Qed.


Lemma setup_metrics_once_witness :
  _service_registries (sample_started true) !! "svc" = Some O
  ∧ @setup_metrics (sample_externals true) "svc" (Some 8000) None true (sample_started true)
    = (Return O, with_world (add_log DEBUG "Metrics already setup for svc")
                   (sample_started true))
  ∧ _service_registries
      (snd (@exec (sample_externals true) 1%nat
              (PSeq PShutdownServers (PSetup "other" None None true))
              (sample_started true))) !! "svc" = Some O
  ∧ ∃ rid, heap (sample_started true) !! rid = None
           ∧ _service_registries
               (snd (@setup_metrics (sample_externals true) "other" None None true
                       (sample_started true))) !! "other" = Some rid.
Proof.
  destruct (@setup_metrics_once (sample_externals true)) as (H1 & H2 & H3).
  assert (_service_registries (sample_started true) !! "svc" = Some O) as Hsvc
    by (vm_compute; reflexivity).
  split; [exact Hsvc|]. split; [|split].
  - apply (H2 "svc" O (Some 8000) None true (sample_started true) Hsvc).
  - apply (H3 "svc" O 1%nat _ (sample_started true) Hsvc).
  - destruct (H1 "other" None None true (sample_started true)) as (rid & Hfresh & Hout);
      [vm_compute; reflexivity|].
    exists rid. split; [exact Hfresh|].
    destruct (@setup_metrics (sample_externals true) "other" None None true
                (sample_started true)) as [res st'].
    destruct Hout as (Hc & _ & _). simpl. rewrite Hc. apply lookup_insert_eq.
Defined.


Lemma correlation_id_round_trip_witness :
  (1 ≠ 2)%nat
  ∧ fst (@get_correlation_id 2%nat
           (snd (@set_correlation_id 1%nat (Some "req_a") (sample_started true))))
    = Return None.
Proof.
  split; [lia|].
  destruct (@correlation_id_round_trip (sample_externals true)) as (_ & Hother & _).
  rewrite (Hother 1%nat 2%nat (Some "req_a") (sample_started true)) by lia.
  vm_compute. reflexivity.
Defined.




Lemma health_gauge_binary_witness :
  (∃ r st', heap (sample_started true) !! O = Some r
            ∧ @set_health_status O false (sample_started true) = (Return tt, st')
            ∧ health_status <$> heap st' !! O = Some 0)
  ∧ health_binary
      (snd (@exec (sample_externals true) 1%nat
              (PSeq (PSetup "svc" None None true)
                    (PWrapped "ok" "bad" "job" [PStr "svc"] ∅
                       (PRaise (ValueError "boom")) PNone))
              (initial_state (sample_world {[9090; 9091]})))).
Proof.
  destruct (@health_gauge_binary (sample_externals true)) as (_ & Hset & _ & Hinit).
  split.
  - assert (∃ r, heap (sample_started true) !! O = Some r) as (r & Hr)
      by (eexists; vm_compute; reflexivity).
    destruct (Hset O false r (sample_started true) Hr) as (st' & E & Hheap & _).
    exists r, st'. split; [exact Hr|]. split; [exact E|].
    by rewrite Hheap.
  - apply Hinit.
Defined.

(** * Further properties of the code *)

(** ** Identifier validation and the query builders *)

Lemma match_ident_rest_iff s :
  match_ident_rest s = true ↔
  ∃ body, all_ident_chars body = true
          ∧ (s = body ∨ s = body +:+ String newline EmptyString).
Proof.
  induction s as [|c s IH]; simpl.
  - split; [intros _; exists EmptyString; by split; [|left]|done].
  - destruct (is_ident_char c) eqn:Hc.
    + rewrite IH. split.
      * intros (body & Hb & [->| ->]); exists (String c body); simpl;
          rewrite Hc, Hb; split; auto.
      * intros (body & Hb & Hs). destruct body as [|c' body].
        { destruct Hs as [Hs|Hs]; [done|]. simpl in Hs. injection Hs as -> _.
          vm_compute in Hc. discriminate. }
        simpl in Hb. apply andb_true_iff in Hb as [_ Hb]. exists body.
        split; [done|]. destruct Hs as [Hs|Hs]; simpl in Hs; injection Hs as _ ->; auto.
    + split.
      * intros [Hn Hs]%andb_true_iff. apply Ascii.eqb_eq in Hn as ->.
        apply String.eqb_eq in Hs as ->. exists EmptyString. split; [done|by right].
      * intros (body & Hb & Hs). destruct body as [|c' body].
        { destruct Hs as [Hs|Hs]; [done|]. simpl in Hs. injection Hs as -> ->.
          done. }
        simpl in Hb. destruct Hs as [Hs|Hs]; simpl in Hs; injection Hs as -> _;
          rewrite Hc in Hb; done.
Qed.

(** X1.  [sanitize_identifier] returns its argument exactly for the strings
    made of a letter or underscore followed by letters, digits and
    underscores, with or without one final newline (which [$] lets
    through); every other string raises [ValueError]. *)
Theorem sanitize_identifier_accepts_iff s :
  (sanitize_identifier s = Return s ↔
   ∃ c body, is_ident_start c = true ∧ all_ident_chars body = true
             ∧ (s = String c body ∨ s = String c body +:+ String newline EmptyString))
  ∧ (sanitize_identifier s = Return s
     ∨ sanitize_identifier s = Raise (ValueError (invalid_identifier_msg s))).
Proof.
  split.
  - unfold sanitize_identifier.
    assert (re_match_identifier s = true ↔
            ∃ c body, is_ident_start c = true ∧ all_ident_chars body = true
              ∧ (s = String c body ∨ s = String c body +:+ String newline EmptyString))
      as Hiff.
    { destruct s as [|c s]; simpl.
      - split; [done|]. intros (c & body & _ & _ & [Hs|Hs]); discriminate.
      - rewrite andb_true_iff, match_ident_rest_iff. split.
        + intros (Hc & body & Hb & [->| ->]); exists c, body; auto.
        + intros (c' & body & Hc & Hb & Hs).
          destruct Hs as [Hs|Hs]; simpl in Hs; injection Hs as -> ->;
            (split; [done|]); exists body; auto. }
    rewrite <- Hiff. destruct (re_match_identifier s); simpl; split; try done.
  - unfold sanitize_identifier. destruct (re_match_identifier s); simpl; auto.
Qed.

Lemma sanitize_identifier_accepts_iff_witness :
  sanitize_identifier ("users" +:+ String newline EmptyString)
  = Return ("users" +:+ String newline EmptyString).
Proof.
  apply (proj1 (sanitize_identifier_accepts_iff _)).
  exists "u"%char, "sers". repeat split; auto.
Defined.

(** X2.  [build_insert_query] returns a query exactly when the table name and
    all keys are valid identifiers and the dialect is one of the four it
    knows.  The query depends on the keys only, never on the values, and is
    the same for [postgres], [postgresql] and [mysql]. *)
Theorem build_insert_query_returns_iff {V : Type} table (data : pydict V) dialect :
  ((∃ q, build_insert_query table data dialect = Return q) ↔
   all_valid (insert_identifiers table data) ∧ supported_insert_dialect dialect = true)
  ∧ (∀ (W : Type) (data' : pydict W), keys data' = keys data →
       build_insert_query table data' dialect = build_insert_query table data dialect)
  ∧ build_insert_query table data "postgresql" = build_insert_query table data "postgres"
  ∧ build_insert_query table data "mysql" = build_insert_query table data "postgres".
Proof.
  split; [|split; [|split; reflexivity]].
  - split.
    + intros [q Hq].
      destruct (all_valid_dec (insert_identifiers table data)) as [Hv|(s & Hin & Hs)].
      * split; [done|]. destruct (supported_insert_dialect dialect) eqn:Hd; [done|].
        rewrite (build_insert_query_dialect table data dialect Hv Hd) in Hq. discriminate.
      * destruct (build_insert_query_invalid table data dialect s Hin Hs) as (s' & _ & E).
        rewrite E in Hq. discriminate.
    + intros [Hv Hd]. unfold build_insert_query.
      rewrite sanitize_identifier_returns by (apply Hv; by left). simpl.
      rewrite rmap_sanitize_valid by (intros s Hs; apply Hv; by right). simpl.
      unfold supported_insert_dialect in Hd.
      destruct (String.eqb dialect "clickhouse") eqn:H1; [by eexists|].
      destruct (String.eqb dialect "postgres") eqn:H2; [by eexists|].
      destruct (String.eqb dialect "postgresql") eqn:H3; [by eexists|].
      simpl in *. rewrite Hd. by eexists.
  - intros W data' Hk. unfold build_insert_query. by rewrite Hk.
Qed.

Lemma build_insert_query_returns_iff_witness :
  build_insert_query (V:=Z) "users" [("id", 1); ("name", 2)] "clickhouse"
  = Return "INSERT INTO users (id, name) VALUES (%(id)s, %(name)s)"
  ∧ build_insert_query (V:=bool) "users" [("id", true); ("name", false)] "clickhouse"
    = build_insert_query (V:=Z) "users" [("id", 1); ("name", 2)] "clickhouse".
Proof.
  destruct (@build_insert_query_returns_iff Z "users" [("id", 1); ("name", 2)] "clickhouse")
    as ([_ Hret] & Hkeys & _).
  destruct Hret as [q Hq].
  { split; [|reflexivity]. intros s [<-|[<-|[<-|[]]]]; reflexivity. }
  split; [reflexivity|]. apply Hkeys. reflexivity.
Defined.

Lemma build_select_query_valid {V} table columns (where_ : pydict V) limit order_by dialect :
  all_valid (select_identifiers table columns where_ order_by) →
  ∃ q, build_select_query table columns where_ limit order_by dialect = Return q.
Proof.
  intros Hv. unfold build_select_query, select_identifiers in *.
  rewrite sanitize_identifier_returns by (apply Hv; by left). simpl.
  assert (all_valid columns) as Hc.
  { intros s Hs. apply Hv. right. apply in_or_app. by left. }
  assert (all_valid (keys where_)) as Hw.
  { intros s Hs. apply Hv. right. apply in_or_app. right. apply in_or_app. by left. }
  assert (∃ cols, match columns with
                  | [] => Return "*"
                  | _ => rbind (rmap sanitize_identifier columns)
                               (λ cs, Return (join ", " cs))
                  end = Return cols) as [cols ->].
  { destruct columns; [by eexists|]. rewrite (rmap_sanitize_valid _ Hc). by eexists. }
  simpl.
  assert (∃ q, match where_ with
               | [] => Return ("SELECT " +:+ cols +:+ " FROM " +:+ table)
               | _ => rbind (where_conditions dialect (keys where_)) (λ conditions,
                      Return (("SELECT " +:+ cols +:+ " FROM " +:+ table)
                              +:+ " WHERE " +:+ join " AND " conditions))
               end = Return q) as [q ->].
  { destruct where_; [by eexists|].
    destruct (where_conditions_valid dialect _ Hw) as [cs ->]. by eexists. }
  simpl. destruct order_by as [ob|]; [|by eexists].
  destruct (String.eqb ob "") eqn:Hob; [by eexists|].
  rewrite sanitize_identifier_returns; [by eexists|].
  apply Hv. right. apply in_or_app. right. apply in_or_app. right. by left.
Qed.

(** X3.  [build_select_query] returns a query exactly when the table name,
    the columns, the keys of the condition and a non-empty ordering column
    are valid identifiers, whatever the dialect.  A limit of [0] is treated
    as no limit and an empty ordering column as none; the values of the
    condition never enter the query. *)
Theorem build_select_query_returns_iff {V : Type}
    table columns (where_ : pydict V) limit order_by dialect :
  ((∃ q, build_select_query table columns where_ limit order_by dialect = Return q) ↔
   all_valid (select_identifiers table columns where_ order_by))
  ∧ build_select_query table columns where_ (Some 0) order_by dialect
    = build_select_query table columns where_ None order_by dialect
  ∧ build_select_query table columns where_ limit (Some EmptyString) dialect
    = build_select_query table columns where_ limit None dialect
  ∧ (∀ (W : Type) (where' : pydict W), keys where' = keys where_ →
       build_select_query table columns where' limit order_by dialect
       = build_select_query table columns where_ limit order_by dialect).
Proof.
  split; [|split; [|split]].
  - split.
    + intros [q Hq].
      destruct (all_valid_dec (select_identifiers table columns where_ order_by))
        as [Hv|(s & Hin & Hs)]; [done|].
      destruct (build_select_query_invalid table columns where_ limit order_by dialect
                  s Hin Hs) as (s' & _ & E).
      rewrite E in Hq. discriminate.
    + apply build_select_query_valid.
  - reflexivity.
  - reflexivity.
  - intros W where' Hk. unfold build_select_query. rewrite Hk.
    destruct where_ as [|w0 where_], where' as [|w0' where']; try done.
Qed.

Lemma build_select_query_returns_iff_witness :
  build_select_query (V:=Z) "users" [] [("id", 7)] (Some 0) (Some "name") "mysql"
  = Return "SELECT * FROM users WHERE id = %s ORDER BY name"
  ∧ ∃ q, build_select_query (V:=Z) "users" ["id"] [] (Some 10) None "clickhouse" = Return q.
Proof.
  split; [reflexivity|].
  apply (proj1 (@build_select_query_returns_iff Z "users" ["id"] [] (Some 10) None
                  "clickhouse")).
  intros s [<-|[<-|[]]]; reflexivity.
Defined.

Lemma getitem_has_key {V} (d : pydict V) k :
  if has_key d k then ∃ v, getitem d k = Return v
  else getitem d k = Raise (KeyError ("'" +:+ k +:+ "'")).
Proof.
  unfold has_key. induction d as [|[k' v] d IH]; simpl; [done|].
  rewrite (String.eqb_sym k k'). destruct (String.eqb k' k); simpl; [by eexists|done].
Qed.

Lemma row_of_record {V} (record : pydict V) cols :
  (∀ col, In col cols → has_key record col = true) →
  ∃ row, rmap (getitem record) cols = Return row ∧ length row = length cols.
Proof.
  induction cols as [|c cols IH]; intros Hall; simpl; [by exists []|].
  pose proof (getitem_has_key record c) as Hc.
  rewrite (Hall c) in Hc by (by left). destruct Hc as [v ->]. simpl.
  destruct IH as (row & -> & Hlen); [intros col Hcol; apply Hall; by right|].
  exists (v :: row). simpl. by rewrite Hlen.
Qed.

Lemma row_of_record_missing {V} (record : pydict V) cols col :
  In col cols → has_key record col = false →
  ∃ col', rmap (getitem record) cols = Raise (KeyError ("'" +:+ col' +:+ "'")).
Proof.
  induction cols as [|c cols IH]; intros Hin Hmiss; [destruct Hin|]. simpl.
  pose proof (getitem_has_key record c) as Hc.
  destruct (has_key record c) eqn:Hk.
  - destruct Hc as [v ->]. simpl. destruct Hin as [->|Hin]; [congruence|].
    destruct (IH Hin Hmiss) as [col' ->]. by exists col'.
  - rewrite Hc. by exists c.
Qed.

Lemma rows_of_records {V} (records : list (pydict V)) cols :
  (∀ record col, In record records → In col cols → has_key record col = true) →
  ∃ rows,
    rmap (λ record, rbind (rmap (getitem record) cols) (λ row, Return (ItemRow row)))
         records = Return (map ItemRow rows)
    ∧ Forall2 (λ record row, rmap (getitem record) cols = Return row) records rows
    ∧ (∀ row, In row rows → length row = length cols).
Proof.
  induction records as [|record records IH]; intros Hall; simpl.
  - exists []. repeat split; [constructor|intros ? []].
  - destruct (row_of_record record cols) as (row & Hrow & Hlen);
      [intros col Hcol; apply Hall; [by left|done]|].
    destruct IH as (rows & E & HF & Hl);
      [intros r c Hr Hc; apply Hall; [by right|done]|].
    exists (row :: rows). rewrite Hrow. simpl. rewrite E. simpl.
    split; [done|]. split; [by constructor|].
    intros row' [<-|Hin]; [done|by apply Hl].
Qed.

Lemma rows_of_records_missing {V} (records : list (pydict V)) cols record col :
  In record records → In col cols → has_key record col = false →
  ∃ col',
    rmap (λ record, rbind (rmap (getitem record) cols) (λ row, Return (ItemRow row)))
         records = Raise (KeyError ("'" +:+ col' +:+ "'")).
Proof.
  induction records as [|r records IH]; intros Hin Hcol Hmiss; [destruct Hin|]. simpl.
  destruct (rmap (getitem r) cols) as [row|e] eqn:Hr.
  - simpl. destruct Hin as [->|Hin].
    + destruct (row_of_record_missing record cols col Hcol Hmiss) as [col' E]. congruence.
    + destruct (IH Hin Hcol Hmiss) as [col' ->]. by exists col'.
  - simpl.
    assert (∃ c, In c cols ∧ has_key r c = false) as (c & Hc & Hk).
    { clear -Hr. induction cols as [|c cols IH]; simpl in Hr; [discriminate|].
      pose proof (getitem_has_key r c) as Hc. destruct (has_key r c) eqn:Hk.
      - destruct Hc as [v Hv]. rewrite Hv in Hr. simpl in Hr.
        destruct (rmap (getitem r) cols) eqn:Hrest; [discriminate|].
        destruct IH as (c' & Hc' & Hk'); [done|]. exists c'. split; [by right|done].
      - exists c. split; [by left|done]. }
    destruct (row_of_record_missing r cols c Hc Hk) as [col' E].
    rewrite E in Hr. injection Hr as <-. by exists col'.
Qed.

Lemma build_batch_insert_other_dialect {V} table (first : pydict V) rest dialect :
  all_valid (insert_identifiers table first) →
  String.eqb dialect "clickhouse" = false →
  build_batch_insert table (first :: rest) dialect
  = rbind (rmap (λ record, rbind (rmap (getitem record) (keys first))
                                 (λ row, Return (ItemRow row))) (first :: rest))
      (λ params,
         Return ("INSERT INTO " +:+ table +:+ " (" +:+ join ", " (keys first)
                 +:+ ") VALUES (" +:+ join ", " (map (λ _, "%s") (keys first)) +:+ ")",
                 params)).
Proof.
  intros Hv Hd. unfold build_batch_insert.
  rewrite sanitize_identifier_returns by (apply Hv; by left).
  unfold rbind at 1.
  rewrite sanitize_all_valid by (intros s Hs; apply Hv; by right).
  unfold rbind at 1. by rewrite Hd.
Qed.

(** X4.  [build_batch_insert] on a non-empty list of records with valid
    identifiers.  For ClickHouse the records go through as they are, with no
    check of their keys.  For every other dialect each record becomes the row
    of its values under the columns of the first record, in that order: one
    row per record, one value per column.  A record that lacks one of these
    columns makes the call raise [KeyError]; keys that the first record does
    not have are dropped silently. *)
Theorem build_batch_insert_rows {V : Type} table (first : pydict V) rest dialect :
  all_valid (insert_identifiers table first) →
  (∃ q, build_batch_insert table (first :: rest) "clickhouse"
        = Return (q, map ItemRecord (first :: rest)))
  ∧ (String.eqb dialect "clickhouse" = false →
     (∀ record col, In record (first :: rest) → In col (keys first) →
                    has_key record col = true) →
     ∃ q rows,
       build_batch_insert table (first :: rest) dialect = Return (q, map ItemRow rows)
       ∧ Forall2 (λ record row, rmap (getitem record) (keys first) = Return row)
                 (first :: rest) rows
       ∧ (∀ row, In row rows → length row = length (keys first)))
  ∧ (String.eqb dialect "clickhouse" = false →
     ∀ record col, In record (first :: rest) → In col (keys first) →
                   has_key record col = false →
     ∃ col', build_batch_insert table (first :: rest) dialect
             = Raise (KeyError ("'" +:+ col' +:+ "'"))).
Proof.
  intros Hv.
  assert (sanitize_identifier table = Return table) as Ht
    by (apply sanitize_identifier_returns, Hv; by left).
  assert (sanitize_all (keys first) = Return tt) as Hk
    by (apply sanitize_all_valid; intros s Hs; apply Hv; by right).
  split; [|split].
  - unfold build_batch_insert. rewrite Ht. simpl. rewrite Hk. simpl. by eexists.
  - intros Hd Hall. rewrite (build_batch_insert_other_dialect _ _ _ _ Hv Hd).
    destruct (rows_of_records (first :: rest) (keys first) Hall) as (rows & E & HF & Hl).
    rewrite E. by eexists _, rows.
  - intros Hd record col Hin Hcol Hmiss.
    rewrite (build_batch_insert_other_dialect _ _ _ _ Hv Hd).
    destruct (rows_of_records_missing (first :: rest) (keys first) record col
                Hin Hcol Hmiss) as [col' E].
    rewrite E. by exists col'.
Qed.

Lemma build_batch_insert_rows_witness :
  build_batch_insert (V:=Z) "users"
    [[("id", 1); ("name", 2)]; [("name", 4); ("id", 3); ("age", 5)]] "postgres"
  = Return ("INSERT INTO users (id, name) VALUES (%s, %s)",
            [ItemRow [1; 2]; ItemRow [3; 4]])
  ∧ ∃ col', build_batch_insert (V:=Z) "users" [[("id", 1); ("name", 2)]; [("id", 3)]]
              "postgres" = Raise (KeyError ("'" +:+ col' +:+ "'")).
Proof.
  split; [reflexivity|].
  destruct (@build_batch_insert_rows Z "users" [("id", 1); ("name", 2)] [[("id", 3)]]
              "postgres") as (_ & _ & Hmiss).
  { intros s [<-|[<-|[<-|[]]]]; reflexivity. }
  apply (Hmiss eq_refl [("id", 3)] "name"); [simpl; tauto|simpl; tauto|reflexivity].
Defined.

(** ** Port resolution *)

Lemma prefix_iff key s : String.prefix key s = true ↔ ∃ b, s = key +:+ b.
Proof.
  revert s. induction key as [|a key IH]; intros s.
  - destruct s; simpl; split; try done; intros _; by eexists.
  - destruct s as [|c s]; simpl.
    + split; [done|]. intros [b Hb]. discriminate.
    + destruct (ascii_dec a c) as [->|Hne].
      * rewrite IH. split; intros [b Hb]; exists b; [by rewrite Hb|by injection Hb].
      * split; [done|]. intros [b Hb]. injection Hb as -> _. done.
Qed.

(** [key in name] holds exactly when [name] is some text, then [key], then
    some text. *)
Lemma is_substring_iff key s :
  is_substring key s = true ↔ ∃ a b, s = a +:+ key +:+ b.
Proof.
  induction s as [|c s IH].
  - cbn [is_substring]. rewrite orb_false_r, prefix_iff. split.
    + intros [b Hb]. by exists EmptyString, b.
    + intros (a & b & Hs). destruct a; [by exists b|discriminate].
  - cbn [is_substring]. rewrite orb_true_iff, prefix_iff, IH. split.
    + intros [[b Hb]|(a & b & ->)]; [by exists EmptyString, b|by exists (String c a), b].
    + intros (a & b & Hs). destruct a as [|c' a]; [left; by exists b|].
      right. simpl in Hs. injection Hs as _ ->. by exists a, b.
Qed.

Lemma first_mapped_port_some name mapping p :
  first_mapped_port name mapping = Some p ↔
  ∃ before key after,
    mapping = (before ++ (key, p) :: after)%list
    ∧ is_substring key name = true
    ∧ ∀ k q, In (k, q) before → is_substring k name = false.
Proof.
  induction mapping as [|[k q] mapping IH]; simpl.
  - split; [done|]. intros (before & key & after & Hm & _). by destruct before.
  - destruct (is_substring k name) eqn:Hk.
    + split.
      * intros [= ->]. exists [], k, mapping. repeat split; [done|intros ? ? []].
      * intros (before & key & after & Hm & Hkey & Hnone).
        destruct before as [|[k' q'] before]; simpl in Hm.
        { by injection Hm as -> -> _. }
        injection Hm as -> -> _. rewrite (Hnone k' q') in Hk; [done|by left].
    + rewrite IH. split.
      * intros (before & key & after & -> & Hkey & Hnone).
        exists ((k, q) :: before), key, after. repeat split; [done|].
        intros k' q' [[= <- <-]|Hin]; [done|by eapply Hnone].
      * intros (before & key & after & Hm & Hkey & Hnone).
        destruct before as [|[k' q'] before]; simpl in Hm.
        { injection Hm as -> -> _. congruence. }
        injection Hm as _ _ ->. exists before, key, after. repeat split; [done|].
        intros k'' q'' Hin. apply (Hnone k'' q''). by right.
Qed.

Lemma first_mapped_port_none name mapping :
  first_mapped_port name mapping = None ↔
  ∀ k q, In (k, q) mapping → is_substring k name = false.
Proof.
  induction mapping as [|[k q] mapping IH]; simpl.
  - split; [intros _ ? ? []|done].
  - destruct (is_substring k name) eqn:Hk.
    + split; [done|]. intros Hall. rewrite (Hall k q) in Hk; [done|by left].
    + rewrite IH. split.
      * intros Hall k' q' [[= <- <-]|Hin]; [done|by eapply Hall].
      * intros Hall k' q' Hin. apply (Hall k' q'). by right.
Qed.

Section MoreObservability.
Context `{Externals}.

(** X5.  The port [start_metrics_server] aims at.  A non-zero argument wins;
    else a non-zero port given at construction; else a non-empty
    [METRICS_PORT], read by [int] (a value [int] refuses raises
    [ValueError], the mapping is not consulted); else the port of the first
    entry of the port mapping, in insertion order, whose key occurs in the
    service name; else 9090.  A port of [0] counts as absent.  The state is
    not changed. *)
Theorem resolve_target_port_priority rid r port_arg st :
  heap st !! rid = Some r →
  (∀ p, port_arg = Some p → p ≠ 0 →
     resolve_target_port rid port_arg st = (Return p, st))
  ∧ (truthy_port port_arg = None → ∀ p, port r = Some p → p ≠ 0 →
     resolve_target_port rid port_arg st = (Return p, st))
  ∧ (truthy_port port_arg = None → truthy_port (port r) = None →
     ∀ e, env_METRICS_PORT (world st) = Some e → e ≠ EmptyString →
     resolve_target_port rid port_arg st
     = (match py_int e with
        | Some z => Return z
        | None => Raise (ValueError ("invalid literal for int() with base 10: '"
                                     +:+ e +:+ "'"))
        end, st))
  ∧ (truthy_port port_arg = None → truthy_port (port r) = None →
     env_METRICS_PORT (world st) = None
     ∨ env_METRICS_PORT (world st) = Some EmptyString →
     (∀ before key p after,
        _port_mapping r = (before ++ (key, p) :: after)%list →
        (∃ a b, service_name r = a +:+ key +:+ b) →
        (∀ k q, In (k, q) before → ¬ ∃ a b, service_name r = a +:+ k +:+ b) →
        resolve_target_port rid port_arg st = (Return p, st))
     ∧ ((∀ k q, In (k, q) (_port_mapping r) → ¬ ∃ a b, service_name r = a +:+ k +:+ b) →
        resolve_target_port rid port_arg st = (Return 9090, st))).
Proof.
  intros Hr.
  assert (∀ p, p ≠ 0 → truthy_port (Some p) = Some p) as Htruthy.
  { intros p Hp. simpl. destruct (Z.eqb_spec p 0); [done|done]. }
  split; [|split; [|split]].
  - intros p -> Hp. unfold resolve_target_port, bind, deref. rewrite Hr.
    by rewrite (Htruthy p Hp).
  - intros Ha p Hport Hp. unfold resolve_target_port, bind, deref. rewrite Hr, Ha, Hport.
    by rewrite (Htruthy p Hp).
  - intros Ha Hb e He Hne. unfold resolve_target_port, bind, deref. rewrite Hr, Ha, Hb.
    unfold _get_default_port, bind, deref. rewrite Hr, He.
    destruct (String.eqb_spec e EmptyString); [done|]. simpl. by destruct (py_int e).
  - intros Ha Hb Henv.
    assert (resolve_target_port rid port_arg st
            = (Return (default 9090 (first_mapped_port (service_name r) (_port_mapping r))),
               st)) as ->.
    { unfold resolve_target_port, bind, deref. rewrite Hr, Ha, Hb.
      unfold _get_default_port, bind, deref. rewrite Hr.
      by destruct Henv as [-> | ->]. }
    split.
    + intros before key p after Hm Hkey Hnone.
      assert (first_mapped_port (service_name r) (_port_mapping r) = Some p) as ->; [|done].
      apply first_mapped_port_some. exists before, key, after.
      split; [done|]. split; [by apply is_substring_iff|].
      intros k q Hin. destruct (is_substring k (service_name r)) eqn:Hk; [|done].
      destruct (Hnone k q Hin). by apply is_substring_iff.
    + intros Hnone.
      assert (first_mapped_port (service_name r) (_port_mapping r) = None) as ->; [|done].
      apply first_mapped_port_none. intros k q Hin.
      destruct (is_substring k (service_name r)) eqn:Hk; [|done].
      destruct (Hnone k q Hin). by apply is_substring_iff.
Qed.

(** ** Starting and tracking servers *)

Lemma find_port_loop_returns n start p q st st' :
  find_port_loop n start p st = (Return q, st') →
  st' = st ∧ valid_port q = true ∧ (q ∉ occupied (world st))
  ∧ (p ≤ q < p + Z.of_nat n) ∧ (∀ i, p ≤ i < q → i ∈ occupied (world st)).
Proof.
  revert p. induction n as [|n IH]; intros p; simpl; [done|].
  unfold bind, _is_port_available. destruct (valid_port p) eqn:Hv; [|done].
  case_bool_decide as Hfree.
  - intros [= <- <-]. repeat split; [done|done|lia|lia|lia].
  - intros Hrec. destruct (IH _ Hrec) as (-> & Hvq & Hq & Hrange & Hlow).
    repeat split; [done|done|lia|lia|].
    intros i Hi. destruct (decide (i = p)) as [->|].
    + destruct (decide (p ∈ occupied (world st))); [done|contradiction].
    + apply Hlow. lia.
Qed.

(** What a returning [start_metrics_server] has done on a registry without a
    server. *)
Lemma start_metrics_server_post rid r port_arg st b st1 :
  heap st !! rid = Some r → server r = None →
  start_metrics_server rid port_arg st = (Return b, st1) →
  b = true
  ∧ ∃ p q,
      fst (resolve_target_port rid port_arg st) = Return p
      ∧ p ≤ q < p + 100 ∧ valid_port q = true
      ∧ (q ∉ occupied (world st)) ∧ (∀ i, p ≤ i < q → i ∈ occupied (world st))
      ∧ heap st1 = <[rid := set_port_server (Some q)
                              (pair (length (listeners (world st)))
                                 <$> http_server_value (length (listeners (world st)))) r]>
                     (heap st)
      ∧ listeners (world st1) = (listeners (world st) ++ [q])%list
      ∧ occupied (world st1) = {[q]} ∪ occupied (world st)
      ∧ stopped (world st1) = stopped (world st)
      ∧ _service_registries st1 = _service_registries st
      ∧ _metrics_servers st1 = _metrics_servers st
      ∧ _correlation_context st1 = _correlation_context st.
Proof.
  intros Hr Hs. unfold start_metrics_server. unfold bind at 1. unfold deref.
  rewrite Hr, Hs. unfold bind at 1.
  pose proof (resolve_target_port_pure rid port_arg st) as Hpure.
  destruct (resolve_target_port rid port_arg st) as [[p|e] st0] eqn:Et; [|done].
  simpl in Hpure. subst st0.
  unfold bind at 1. unfold _is_port_available at 1.
  destruct (valid_port p) eqn:Hvp; [|done].
  assert (∀ q st2, valid_port q = true → q ∉ occupied (world st2) →
            heap st2 = heap st → listeners (world st2) = listeners (world st) →
            occupied (world st2) = occupied (world st) →
            stopped (world st2) = stopped (world st) →
            _service_registries st2 = _service_registries st →
            _metrics_servers st2 = _metrics_servers st →
            _correlation_context st2 = _correlation_context st →
            (let! srv := start_http_server q in
             mutate rid (set_port_server (Some q) srv) ;;
             logger INFO ("Metrics server started for " +:+ service_name r
                          +:+ " on port " +:+ pretty q) ;;
             logger INFO ("Metrics available at: http://localhost:" +:+ pretty q
                          +:+ "/metrics") ;;
             ret true) st2 = (Return b, st1) →
            b = true
            ∧ heap st1 = <[rid := set_port_server (Some q)
                              (pair (length (listeners (world st)))
                                 <$> http_server_value (length (listeners (world st)))) r]>
                           (heap st)
            ∧ listeners (world st1) = (listeners (world st) ++ [q])%list
            ∧ occupied (world st1) = {[q]} ∪ occupied (world st)
            ∧ stopped (world st1) = stopped (world st)
            ∧ _service_registries st1 = _service_registries st
            ∧ _metrics_servers st1 = _metrics_servers st
            ∧ _correlation_context st1 = _correlation_context st) as Hbind.
  { intros q st2 Hvq Hq Hh Hl Ho Hst Hc Hm Hx.
    unfold bind, start_http_server. rewrite Hvq. simpl.
    rewrite bool_decide_eq_false_2 by done. simpl.
    intros [= <- <-]. simpl. rewrite Hh, Hl, Ho, Hst, Hc, Hm, Hx.
    split; [done|]. split; [|done].
    apply map_eq. intros i. rewrite lookup_alter, lookup_insert.
    case_decide; [subst; by rewrite Hr|done]. }
  case_bool_decide as Hfree; simpl.
  - unfold bind at 1. simpl. intros Hrun.
    destruct (Hbind p st Hvp Hfree) as (-> & Hrest); try done.
    split; [done|]. exists p, p. split; [done|]. split; [lia|]. split; [done|].
    split; [done|]. split; [lia|done].
  - unfold bind at 1. unfold bind at 1. simpl. unfold bind at 1.
    unfold _find_available_port.
    set (st2 := with_world _ st).
    destruct (find_port_loop 100 p p st2) as [[q|e] st3] eqn:Ef; [|done].
    destruct (find_port_loop_returns _ _ _ _ _ _ Ef) as (-> & Hvq & Hq & Hrange & Hlow).
    intros Hrun.
    destruct (Hbind q st2 Hvq Hq) as (-> & Hrest); try done.
    split; [done|]. exists p, q. split; [done|]. split; [lia|]. split; [done|].
    split; [done|]. split; [exact Hlow|done].
Qed.


(** X7.  Two calls in a row, with a library whose [start_http_server] hands
    back an object: when the first call returns, the second returns [True]
    and opens no listener, whatever port it is given; one listener is all
    there is. *)
Theorem start_twice_one_listener rid r port_arg port_arg' st b st1 :
  heap st !! rid = Some r → server r = None →
  http_server_value (length (listeners (world st))) ≠ None →
  start_metrics_server rid port_arg st = (Return b, st1) →
  ∃ st2,
    start_metrics_server rid port_arg' st1 = (Return true, st2)
    ∧ heap st2 = heap st1
    ∧ listeners (world st2) = listeners (world st1)
    ∧ length (listeners (world st2)) = S (length (listeners (world st))).
Proof.
  intros Hr Hs Hlib Hrun.
  destruct (start_metrics_server_post rid r port_arg st b st1 Hr Hs Hrun)
    as (_ & p & q & _ & _ & _ & _ & _ & Hheap & Hl & _).
  destruct (http_server_value (length (listeners (world st)))) as [h|]; [|done].
  assert (heap st1 !! rid
          = Some (set_port_server (Some q) (Some (length (listeners (world st)), h)) r))
    as Hr1 by (rewrite Hheap; apply lookup_insert_eq).
  unfold start_metrics_server, bind, deref. rewrite Hr1. cbn.
  eexists. split; [reflexivity|]. cbn.
  rewrite Hl, length_app. cbn. repeat split. lia.
Qed.


Lemma find_port_loop_pure n start p st : snd (find_port_loop n start p st) = st.
Proof.
  revert p. induction n as [|n IH]; intros p; simpl; [done|].
  unfold bind, _is_port_available. destruct (valid_port p); [|done].
  case_bool_decide; [done|apply IH].
Qed.

(** A start that raises has changed nothing but the log. *)
Lemma start_metrics_server_raises rid r port_arg st e st1 :
  heap st !! rid = Some r → server r = None →
  start_metrics_server rid port_arg st = (Raise e, st1) →
  heap st1 = heap st
  ∧ listeners (world st1) = listeners (world st)
  ∧ occupied (world st1) = occupied (world st)
  ∧ stopped (world st1) = stopped (world st)
  ∧ _service_registries st1 = _service_registries st
  ∧ _metrics_servers st1 = _metrics_servers st.
Proof.
  intros Hr Hs. unfold start_metrics_server. unfold bind at 1. unfold deref.
  rewrite Hr, Hs. unfold bind at 1.
  pose proof (resolve_target_port_pure rid port_arg st) as Hpure.
  destruct (resolve_target_port rid port_arg st) as [[p|e0] st0] eqn:Et;
    simpl in Hpure; subst st0; [|by intros [= <- <-]].
  unfold bind at 1. unfold _is_port_available at 1.
  destruct (valid_port p) eqn:Hvp; [|by intros [= <- <-]].
  assert (∀ q st2, valid_port q = true → q ∉ occupied (world st2) →
            (let! srv := start_http_server q in
             mutate rid (set_port_server (Some q) srv) ;;
             logger INFO ("Metrics server started for " +:+ service_name r
                          +:+ " on port " +:+ pretty q) ;;
             logger INFO ("Metrics available at: http://localhost:" +:+ pretty q
                          +:+ "/metrics") ;;
             ret true) st2 ≠ (Raise e, st1)) as Htail.
  { intros q st2 Hvq Hq. unfold bind, start_http_server. rewrite Hvq. simpl.
    by rewrite bool_decide_eq_false_2. }
  case_bool_decide as Hfree; simpl.
  - unfold bind at 1. simpl. intros Hrun. by destruct (Htail p st Hvp Hfree).
  - unfold bind at 1. unfold bind at 1. simpl. unfold bind at 1.
    unfold _find_available_port.
    set (st2 := with_world _ st).
    pose proof (find_port_loop_pure 100 p p st2) as Hp2.
    destruct (find_port_loop 100 p p st2) as [[q|e0] st3] eqn:Ef; simpl in Hp2; subst st3;
      [|by intros [= <- <-]].
    destruct (find_port_loop_returns _ _ _ _ _ _ Ef) as (_ & Hvq & Hq & _).
    intros Hrun. by destruct (Htail q st2 Hvq Hq).
Qed.



(** X10.  Shutdown is final.  [shutdown_metrics_servers] leaves the [server]
    attribute of the objects as it is, so for a registry whose server was
    started neither [start_metrics_server] nor [setup_metrics] under its name
    brings a listener back afterwards: both return as for a running server,
    open nothing and track nothing.  A second shutdown stops nothing. *)
Theorem shutdown_is_final rid r h st :
  heap st !! rid = Some r → server r = Some h →
  ∃ st1,
    shutdown_metrics_servers st = (Return tt, st1)
    ∧ (∀ port_arg, ∃ st2,
         start_metrics_server rid port_arg st1 = (Return true, st2)
         ∧ heap st2 = heap st
         ∧ listeners (world st2) = listeners (world st)
         ∧ _metrics_servers st2 = [])
    ∧ (∀ name port_arg port_mapping start_server,
         _service_registries st !! name = Some rid →
         ∃ st2,
           setup_metrics name port_arg port_mapping start_server st1 = (Return rid, st2)
           ∧ heap st2 = heap st
           ∧ listeners (world st2) = listeners (world st)
           ∧ _metrics_servers st2 = [])
    ∧ (∃ st2, shutdown_metrics_servers st1 = (Return tt, st2)
              ∧ stopped (world st2) = stopped (world st1)
              ∧ _metrics_servers st2 = []).
Proof.
  intros Hr Hs.
  destruct (shutdown_loop_spec (_metrics_servers st) st)
    as (st0 & E & Hst & Hh & Hc & Hm & Hx & Hl & Ho).
  exists (with_servers (λ _, []) st0).
  split; [unfold shutdown_metrics_servers, bind; by rewrite E|].
  split; [|split].
  - intros port_arg. eexists.
    unfold start_metrics_server, bind, deref. cbn. rewrite Hh, Hr, Hs. cbn.
    split; [reflexivity|]. cbn. by rewrite Hh, Hl.
  - intros name port_arg port_mapping start_server Hname. eexists.
    unfold setup_metrics. cbn. rewrite Hc, Hname. cbn.
    split; [reflexivity|]. cbn. by rewrite Hh, Hl.
  - eexists. unfold shutdown_metrics_servers, bind. cbn.
    split; [reflexivity|]. cbn. rewrite ?app_nil_r. done.
Qed.

Lemma record_errors_step n rid error_type component st :
  record_errors (S n) rid error_type component st
  = record_errors n rid error_type component
      (with_heap (alter (λ r, set_errors_total
         (<[(error_type, component)
            := S (default O (errors_total r !! (error_type, component)))]>
            (errors_total r)) r) rid) st).
Proof. reflexivity. Qed.

(** X11.  Errors add up.  [n] calls of [record_error] with the same labels
    raise the count under these labels by exactly [n] and always return; the
    counts under every other pair of labels, the health gauge, the server and
    the attached counters of the object, every other object, the module
    globals and the world stay as they were. *)
Theorem record_errors_accumulate n rid r error_type component st :
  heap st !! rid = Some r →
  ∃ r' st',
    record_errors n rid error_type component st = (Return tt, st')
    ∧ heap st' !! rid = Some r'
    ∧ error_count r' error_type component = (error_count r error_type component + n)%nat
    ∧ (∀ t c, (t, c) ≠ (error_type, component) → error_count r' t c = error_count r t c)
    ∧ health_status r' = health_status r
    ∧ server r' = server r ∧ port r' = port r
    ∧ attrs r' = attrs r ∧ registry r' = registry r
    ∧ service_name r' = service_name r
    ∧ (∀ rid', rid' ≠ rid → heap st' !! rid' = heap st !! rid')
    ∧ _service_registries st' = _service_registries st
    ∧ _metrics_servers st' = _metrics_servers st
    ∧ _correlation_context st' = _correlation_context st
    ∧ world st' = world st.
Proof.
  revert r st. induction n as [|n IH]; intros r st Hr.
  - exists r, st. simpl. rewrite Nat.add_0_r. by repeat split.
  - rewrite record_errors_step.
    set (f := λ r0 : MetricsRegistry, set_errors_total _ r0).
    destruct (IH (f r) (with_heap (alter f rid) st)) as (r' & st' & E & Hr' & Hn & Ho & Hrest).
    { simpl. by rewrite lookup_alter_eq, Hr. }
    exists r', st'. split; [done|]. split; [done|].
    split.
    { rewrite Hn. unfold f, error_count. simpl. rewrite lookup_insert_eq. simpl. lia. }
    split.
    { intros t c Hne. rewrite (Ho t c Hne). unfold f, error_count. simpl.
      by rewrite lookup_insert_ne. }
    destruct Hrest as (? & ? & ? & ? & ? & ? & Hframe & ? & ? & ? & ?).
    repeat (split; [done|]).
    split; [|done].
    intros rid' Hne. rewrite (Hframe rid' Hne). simpl. by rewrite lookup_alter_ne.
Qed.

Lemma lookup_registry_absent args kwargs st st0 :
  registry_absent args kwargs st →
  _service_registries st0 = _service_registries st →
  lookup_registry args kwargs st0 = (Return None, st0).
Proof.
  unfold registry_absent, lookup_registry, get_metrics_registry. intros Habs Hc.
  destruct args as [|[] args]; try rewrite Hc, Habs; try done;
    destruct (kwargs !! "service_name") as [[]|]; try rewrite Hc, Habs; done.
Qed.

(** X12.  A wrapped call for which the lookup finds no registry.  The
    function runs with a correlation id in the thread's slot: the one in
    force when it is not empty, else a new [req_] one.  The outcome of the
    call is the function's own, a result or an exception of any class, and
    the state it leaves is the one the function left with the thread's slot
    cleared: no metric is created, no error counted, no gauge set, nothing
    logged by the wrapper.  This holds also when the function itself sets a
    registry up under the name. *)
Theorem wrapper_without_registry success_name failure_name func t args kwargs st :
  registry_absent args kwargs st →
  ∃ cid st1,
    correlation_prologue t st = (Return cid, st1)
    ∧ (∀ c, _correlation_context st !! t = Some (Some c) → c ≠ EmptyString →
            cid = c ∧ world st1 = world st)
    ∧ (_correlation_context st !! t = None ∨ _correlation_context st !! t = Some None
       ∨ _correlation_context st !! t = Some (Some EmptyString) →
       cid = "req_" +:+ uuid4_hex12 (uuid_calls (world st))
       ∧ uuid_calls (world st1) = S (uuid_calls (world st)))
    ∧ _correlation_context st1 = <[t := Some cid]> (_correlation_context st)
    ∧ heap st1 = heap st
    ∧ _service_registries st1 = _service_registries st
    ∧ _metrics_servers st1 = _metrics_servers st
    ∧ manage_metrics success_name failure_name func t args kwargs st
      = (fst (call func t args kwargs st1),
         with_context (<[t := None]>) (snd (call func t args kwargs st1))).
Proof.
  intros Habs.
  assert (∀ st1, _service_registries st1 = _service_registries st →
            snd (correlation_prologue t st) = st1 →
            manage_metrics success_name failure_name func t args kwargs st
            = (fst (call func t args kwargs st1),
               with_context (<[t := None]>) (snd (call func t args kwargs st1))))
    as Hrun.
  { intros st1 Hc <-. rewrite manage_metrics_unfold. unfold try_block.
    rewrite (lookup_registry_absent _ _ _ _ Habs Hc).
    destruct (call func t args kwargs _) as [[v|e] st2]; cbn; [done|].
    by destruct (exn_is_Exception e). }
  unfold correlation_prologue, bind, get_correlation_id in *. cbn in *.
  destruct (_correlation_context st !! t) as [[c|]|] eqn:Hslot; cbn in *.
  - destruct (String.eqb_spec c "") as [->|Hne]; cbn in *.
    + eexists _, _. split; [reflexivity|]. cbn.
      split; [intros c [= <-]; done|]. split; [done|].
      split; [done|]. split; [done|]. split; [done|]. split; [done|].
      by apply Hrun.
    + eexists _, _. split; [reflexivity|]. cbn.
      split; [by intros c' [= <-]|].
      split; [intros [|[|[=]]]; done|].
      split; [done|]. split; [done|]. split; [done|]. split; [done|].
      by apply Hrun.
  - eexists _, _. split; [reflexivity|]. cbn.
    split; [done|]. split; [done|].
    split; [done|]. split; [done|]. split; [done|]. split; [done|].
    by apply Hrun.
  - eexists _, _. split; [reflexivity|]. cbn.
    split; [done|]. split; [done|].
    split; [done|]. split; [done|]. split; [done|]. split; [done|].
    by apply Hrun.
Qed.

(** X13.  A [service_name] keyword that cannot be hashed, when the first
    positional argument is no string: the lookup raises [TypeError], the
    wrapper lets it out, and the wrapped function is never called: the state
    is the one the prologue left, with the thread's slot cleared. *)
Theorem wrapper_unhashable_service_name
    success_name failure_name func t args kwargs st :
  (∀ s rest, args ≠ PStr s :: rest) →
  kwargs !! "service_name" = Some PUnhashable →
  ∃ e,
    manage_metrics success_name failure_name func t args kwargs st
    = (Raise e, with_context (<[t := None]>) (snd (correlation_prologue t st)))
    ∧ exn_class e = "TypeError".
Proof.
  intros Hargs Hkw. rewrite manage_metrics_unfold. unfold try_block.
  assert (∀ st0, lookup_registry args kwargs st0
                 = (Raise (TypeError "unhashable type"), st0)) as Hlookup.
  { intros st0. unfold lookup_registry.
    destruct args as [|[] args]; try (by rewrite Hkw).
    by destruct (Hargs s args). }
  rewrite Hlookup. cbn. eexists. split; reflexivity.
Qed.


Lemma lookup_registry_pure args kwargs st : snd (lookup_registry args kwargs st) = st.
Proof.
  unfold lookup_registry, get_metrics_registry.
  destruct args as [|[] args]; try done;
    destruct (kwargs !! "service_name") as [[]|]; done.
Qed.

Lemma call_log_errors qualname func t args kwargs st :
  call (log_errors qualname func) t args kwargs st
  = match call func t args kwargs st with
    | (Return v, st') => (Return v, st')
    | (Raise e, st') =>
        if exn_is_Exception e
        then (Raise e, with_world (add_log ERROR ("Error in " +:+ qualname)) st')
        else (Raise e, st')
    end.
Proof.
  cbn. destruct (call func t args kwargs st) as [[v|e] st']; [done|].
  by destruct (exn_is_Exception e).
Qed.

Lemma record_success_log_errors success_name qualname func rid st :
  record_success success_name (log_errors qualname func) rid st
  = record_success success_name func rid st.
Proof. reflexivity. Qed.

Lemma except_clause_log_errors failure_name qualname func reg e st :
  except_clause failure_name (log_errors qualname func) reg e st
  = except_clause failure_name func reg e st.
Proof. reflexivity. Qed.

(** X16.  [log_errors] under [manage_metrics].  Wrapping the function in
    [log_errors] before it is handed to [manage_metrics] changes nothing of
    what the metrics wrapper does: the outcome of the call is the same, and
    so are the objects, the counters and gauges, the module globals, the
    correlation slots and the world, up to the log.  The log has one record
    more, [Error in] and the qualified name, exactly when the function was
    called and raised an exception deriving from [Exception]; it comes
    before what the metrics wrapper logs for the failure. *)
Theorem log_errors_under_metrics
    success_name failure_name qualname func t args kwargs st :
  ∃ pre post,
    fst (manage_metrics success_name failure_name (log_errors qualname func)
           t args kwargs st)
    = fst (manage_metrics success_name failure_name func t args kwargs st)
    ∧ same_but_log
        (snd (manage_metrics success_name failure_name (log_errors qualname func)
                t args kwargs st))
        (snd (manage_metrics success_name failure_name func t args kwargs st))
    ∧ log (world (snd (manage_metrics success_name failure_name func
                         t args kwargs st)))
      = (pre ++ post)%list
    ∧ log (world (snd (manage_metrics success_name failure_name
                         (log_errors qualname func) t args kwargs st)))
      = (pre ++ logged_error qualname func t args kwargs
                  (snd (correlation_prologue t st)) ++ post)%list
    ∧ (length post ≤ 1)%nat.
Proof.
  rewrite !manage_metrics_unfold. unfold logged_error.
  set (st1 := snd (correlation_prologue t st)).
  unfold try_block.
  pose proof (lookup_registry_pure args kwargs st1) as Hpure.
  destruct (lookup_registry args kwargs st1) as [[[rid|]|e0] st1'] eqn:Elook;
    simpl in Hpure; subst st1'; cbn [fst].
  - (* a registry was found *)
    rewrite call_log_errors.
    destruct (call func t args kwargs st1) as [[v|e] st2] eqn:Ecall; cbn [fst].
    + rewrite record_success_log_errors.
      destruct (record_success success_name func rid st2) as [[u|e] st3].
      * exists (log (world st3)), []. cbn. rewrite app_nil_r. repeat split. lia.
      * destruct (exn_is_Exception e) eqn:Hexc.
        -- rewrite except_clause_log_errors.
           exists (log (world (snd (except_clause failure_name func (Some rid) e st3)))), [].
           destruct (except_clause failure_name func (Some rid) e st3) as [res st4].
           cbn. rewrite app_nil_r. repeat split. lia.
        -- exists (log (world st3)), []. cbn. rewrite app_nil_r. repeat split. lia.
    + destruct (exn_is_Exception e) eqn:Hexc.
      * rewrite Hexc, except_clause_log_errors.
        exists (log (world st2)),
               [(ERROR, "Failed to execute " +:+ __name__ func +:+ ": " +:+ exn_msg e)].
        cbn. rewrite <- !app_assoc. repeat split. lia.
      * rewrite Hexc. exists (log (world st2)), []. cbn. rewrite app_nil_r.
        repeat split. lia.
  - (* no registry *)
    rewrite call_log_errors.
    destruct (call func t args kwargs st1) as [[v|e] st2] eqn:Ecall; cbn [fst].
    + exists (log (world st2)), []. cbn. rewrite app_nil_r. repeat split. lia.
    + destruct (exn_is_Exception e) eqn:Hexc.
      * rewrite Hexc, except_clause_log_errors.
        exists (log (world st2)), []. cbn. rewrite app_nil_r. repeat split. lia.
      * rewrite Hexc. exists (log (world st2)), []. cbn. rewrite app_nil_r.
        repeat split. lia.
  - (* the lookup raised *)
    destruct (exn_is_Exception e0) eqn:Hexc.
    + rewrite except_clause_log_errors.
      exists (log (world st1)), []. cbn. rewrite app_nil_r. repeat split. lia.
    + exists (log (world st1)), []. cbn. rewrite app_nil_r. repeat split. lia.
Qed.

(** ** Consistency is kept by every client program *)

Lemma well_formed_ext st st' :
  heap st' = heap st →
  _service_registries st' = _service_registries st →
  _metrics_servers st' = _metrics_servers st →
  listeners (world st') = listeners (world st) →
  occupied (world st') = occupied (world st) →
  stopped (world st') = stopped (world st) →
  well_formed st → well_formed st'.
Proof.
  intros Hh Hc Hm Hl Ho Hs [H1 H2 H3 H4 H5 H6 H7].
  split; rewrite ?Hh, ?Hc, ?Hm, ?Hl, ?Ho, ?Hs; done.
Qed.

Lemma initial_state_well_formed w :
  listeners w = [] → stopped w = [] → well_formed (initial_state w).
Proof.
  intros Hl Hs. split; simpl; rewrite ?Hl, ?Hs; try done.
  - apply NoDup_nil_2.
  - intros q Hq. by apply elem_of_nil in Hq.
Qed.

Lemma wf_logger l msg : preserves well_formed (logger l msg).
Proof. intros st Hwf. by apply (well_formed_ext st). Qed.

Lemma wf_set_correlation_id t cid : preserves well_formed (set_correlation_id t cid).
Proof. intros st Hwf. by apply (well_formed_ext st). Qed.

Lemma wf_generate_correlation_id : preserves well_formed generate_correlation_id.
Proof. intros st Hwf. by apply (well_formed_ext st). Qed.

Lemma wf_get_correlation_id t : preserves well_formed (get_correlation_id t).
Proof. by intros st Hwf. Qed.

Lemma wf_mutate rid g : identity_safe g → preserves well_formed (mutate rid g).
Proof.
  intros Hg st [H1 H2 H3 H4 H5 H6 H7].
  assert (∀ rid' r', alter g rid (heap st) !! rid' = Some r' →
            ∃ r, heap st !! rid' = Some r ∧ service_name r' = service_name r
                 ∧ port r' = port r ∧ server r' = server r) as Hback.
  { intros rid' r'. destruct (decide (rid = rid')) as [<-|Hne].
    - rewrite lookup_alter_eq. destruct (heap st !! rid) as [r|]; [|done].
      intros [= <-]. exists r. split; [done|apply Hg].
    - rewrite lookup_alter_ne by done. intros Hr. exists r'. by repeat split. }
  assert (∀ rid' r, heap st !! rid' = Some r →
            ∃ r', alter g rid (heap st) !! rid' = Some r'
                  ∧ service_name r' = service_name r) as Hfwd.
  { intros rid' r Hr. destruct (decide (rid = rid')) as [<-|Hne].
    - rewrite lookup_alter_eq, Hr. eexists. split; [reflexivity|apply Hg].
    - rewrite lookup_alter_ne by done. by exists r. }
  split; simpl; try done.
  - intros name rid' Hc. destruct (H1 _ _ Hc) as (r & Hr & Hn).
    destruct (Hfwd _ _ Hr) as (r' & Hr' & Hn'). exists r'. split; [done|congruence].
  - intros rid' r' i b Hr' Hs. destruct (Hback _ _ Hr') as (r & Hr & _ & Hp & Hsv).
    rewrite Hp. apply (H2 rid' r i b); [done|congruence].
  - intros rid1 rid2 r1 r2 i b b' Hr1 Hr2 Hs1 Hs2.
    destruct (Hback _ _ Hr1) as (r1' & Hr1' & _ & _ & Hsv1).
    destruct (Hback _ _ Hr2) as (r2' & Hr2' & _ & _ & Hsv2).
    apply (H3 rid1 rid2 r1' r2' i b b'); congruence.
Qed.

Lemma wf_create_counter rid name description labels :
  preserves well_formed (create_counter rid name description labels).
Proof.
  unfold create_counter. apply preserves_bind; [apply preserves_deref|].
  intros r. destruct (negb (sink_valid_name name)); [apply preserves_raise|].
  case_bool_decide; [apply preserves_raise|].
  apply preserves_bind; [|intros; apply preserves_ret].
  apply wf_mutate. by intros r'.
Qed.

Lemma wf_record_error rid error_type component :
  preserves well_formed (record_error rid error_type component).
Proof. apply wf_mutate. by intros r. Qed.

Lemma wf_set_health_status rid healthy :
  preserves well_formed (set_health_status rid healthy).
Proof. apply wf_mutate. by intros r. Qed.

Lemma wf_getattr_labels_inc rid name :
  preserves well_formed (getattr_labels_inc rid name).
Proof.
  unfold getattr_labels_inc. apply preserves_bind; [apply preserves_deref|].
  intros r. destruct (attrs r !! name) as [c|].
  - destruct (labels_inc _ c); [|apply preserves_raise].
    apply wf_mutate. by intros r'.
  - destruct (String.eqb name "errors_total"); [apply preserves_raise|].
    case_bool_decide; apply preserves_raise.
Qed.

Lemma wf_record_success success_name func rid :
  preserves well_formed (record_success success_name func rid).
Proof.
  unfold record_success. apply preserves_bind; [apply preserves_deref|].
  intros r. apply preserves_bind.
  { destruct (negb (hasattr r success_name)); [|apply preserves_ret].
    apply preserves_bind; [apply wf_create_counter|].
    intros c. apply wf_mutate. by intros r'. }
  intros _. apply preserves_bind; [apply wf_getattr_labels_inc|].
  intros _. apply preserves_bind; [apply wf_set_health_status|].
  intros _. apply wf_logger.
Qed.

Lemma wf_except_clause failure_name func reg e :
  preserves well_formed (except_clause failure_name func reg e).
Proof.
  unfold except_clause. destruct reg as [rid|]; [|apply preserves_raise].
  apply preserves_bind; [apply wf_record_error|].
  intros _. apply preserves_bind; [apply wf_set_health_status|].
  intros _. apply preserves_bind; [apply wf_logger|].
  intros _. apply preserves_raise.
Qed.

Lemma wf_correlation_prologue t : preserves well_formed (correlation_prologue t).
Proof.
  unfold correlation_prologue.
  apply preserves_bind; [apply wf_get_correlation_id|].
  intros cur. apply preserves_bind.
  { destruct cur as [c|]; [destruct (String.eqb c "")|];
      by first [apply wf_generate_correlation_id|apply preserves_ret]. }
  intros cid. apply preserves_bind; [apply wf_set_correlation_id|].
  intros _. apply preserves_ret.
Qed.

Lemma wf_manage_metrics success_name failure_name func t args kwargs :
  preserves well_formed (call func t args kwargs) →
  preserves well_formed
    (manage_metrics success_name failure_name func t args kwargs).
Proof.
  intros Hf st Hwf. rewrite manage_metrics_unfold.
  pose proof (wf_correlation_prologue t st Hwf) as Hwf0.
  set (st0 := snd (correlation_prologue t st)) in *.
  assert (well_formed (snd (try_block success_name func t args kwargs st0))) as Hwf1.
  { unfold try_block. pose proof (lookup_registry_pure args kwargs st0) as Hpure.
    destruct (lookup_registry args kwargs st0) as [[[rid|]|e] st1];
      simpl in Hpure; subst st1; [| |done].
    - pose proof (Hf st0 Hwf0) as Hwf2.
      destruct (call func t args kwargs st0) as [[v|e] st2]; simpl in *; [|done].
      pose proof (wf_record_success success_name func rid st2 Hwf2) as Hwf3.
      by destruct (record_success success_name func rid st2) as [[]].
    - pose proof (Hf st0 Hwf0) as Hwf2.
      by destruct (call func t args kwargs st0). }
  destruct (try_block _ _ _ _ _ _) as [[res reg] st1]. simpl in Hwf1.
  destruct res as [v|e]; simpl.
  - by apply (well_formed_ext st1).
  - destruct (exn_is_Exception e); simpl; [|by apply (well_formed_ext st1)].
    pose proof (wf_except_clause failure_name func reg e st1 Hwf1) as Hwf2.
    destruct (except_clause failure_name func reg e st1) as [res' st2].
    by apply (well_formed_ext st2).
Qed.

Lemma wf_start_metrics_server rid port_arg :
  preserves well_formed (start_metrics_server rid port_arg).
Proof.
  intros st Hwf.
  destruct (heap st !! rid) as [r|] eqn:Hr.
  2:{ unfold start_metrics_server, bind, deref. by rewrite Hr. }
  destruct (server r) as [h|] eqn:Hs.
  { unfold start_metrics_server, bind, deref. rewrite Hr, Hs. cbn.
    by apply (well_formed_ext st). }
  destruct (start_metrics_server rid port_arg st) as [[b|e] st1] eqn:E; cbn [snd].
  2:{ destruct (start_metrics_server_raises rid r port_arg st e st1 Hr Hs E)
        as (Hh & Hl & Ho & Hst & Hc & Hm).
      by apply (well_formed_ext st). }
  destruct (start_metrics_server_post rid r port_arg st b st1 Hr Hs E)
    as (_ & p & q & _ & _ & _ & Hfree & _ & Hh & Hl & Ho & Hst & Hc & Hm & _).
  destruct Hwf as [H1 H2 H3 H4 H5 H6 H7].
  set (n := length (listeners (world st))) in *.
  split; rewrite ?Hh, ?Hl, ?Ho, ?Hst, ?Hc, ?Hm.
  - intros name rid' Hname. destruct (H1 _ _ Hname) as (r0 & Hr0 & Hn).
    destruct (decide (rid = rid')) as [<-|Hne].
    + rewrite lookup_insert_eq. eexists. split; [done|]. simpl. congruence.
    + rewrite lookup_insert_ne by done. by exists r0.
  - intros rid' r' i b' Hr' Hs'. destruct (decide (rid = rid')) as [<-|Hne].
    + rewrite lookup_insert_eq in Hr'. injection Hr' as <-. simpl in *.
      exists q. split; [done|].
      destruct (http_server_value n); [|done]. injection Hs' as <- <-.
      apply lookup_snoc_Some. by right.
    + rewrite lookup_insert_ne in Hr' by done.
      destruct (H2 _ _ _ _ Hr' Hs') as (q' & Hp' & Hq'). exists q'.
      split; [done|]. apply lookup_snoc_Some. left.
      split; [by eapply lookup_lt_Some|done].
  - assert (∀ rid' r' b', heap st !! rid' = Some r' → server r' = Some (n, b') → False)
      as Hfresh.
    { intros rid' r' b' Hr' Hs'. destruct (H2 _ _ _ _ Hr' Hs') as (q' & _ & Hq').
      apply lookup_lt_Some in Hq'. unfold n in Hq'. lia. }
    intros rid1 rid2 r1 r2 i b1 b2 Hr1 Hr2 Hs1 Hs2.
    destruct (decide (rid = rid1)) as [<-|Hne1], (decide (rid = rid2)) as [<-|Hne2];
      [done| | |].
    + rewrite lookup_insert_eq in Hr1. rewrite lookup_insert_ne in Hr2 by done.
      injection Hr1 as <-. simpl in Hs1.
      destruct (http_server_value n); [|done]. injection Hs1 as <- <-.
      by destruct (Hfresh _ _ _ Hr2 Hs2).
    + rewrite lookup_insert_eq in Hr2. rewrite lookup_insert_ne in Hr1 by done.
      injection Hr2 as <-. simpl in Hs2.
      destruct (http_server_value n); [|done]. injection Hs2 as <- <-.
      by destruct (Hfresh _ _ _ Hr1 Hs1).
    + rewrite lookup_insert_ne in Hr1, Hr2 by done. by eapply H3.
  - apply NoDup_app. split; [done|]. split; [|apply NoDup_singleton].
    intros x Hx Hxq. apply list_elem_of_singleton in Hxq. subst x. by apply Hfree, H5.
  - intros x [Hx|Hx]%elem_of_app.
    + apply elem_of_union_r. by apply H5.
    + apply list_elem_of_singleton in Hx. subst x. by apply elem_of_union_l, elem_of_singleton.
  - intros name srv Hin. destruct (H6 _ _ Hin) as [Hsome Hbound]. split; [done|].
    intros i b' Hsrv. rewrite length_app. specialize (Hbound _ _ Hsrv). lia.
  - intros i Hi. rewrite length_app. specialize (H7 _ Hi). lia.
Qed.

Lemma well_formed_alloc rid r st :
  heap st !! rid = None → server r = None →
  well_formed st → well_formed (with_heap (<[rid := r]>) st).
Proof.
  intros Hnone Hs [H1 H2 H3 H4 H5 H6 H7]. split; simpl; try done.
  - intros name rid' Hname. destruct (H1 _ _ Hname) as (r0 & Hr0 & Hn).
    exists r0. split; [|done]. rewrite lookup_insert_ne; [done|congruence].
  - intros rid' r' i b. destruct (decide (rid = rid')) as [<-|Hne].
    + rewrite lookup_insert_eq. intros [= <-]. congruence.
    + rewrite lookup_insert_ne by done. apply H2.
  - intros rid1 rid2 r1 r2 i b b'.
    destruct (decide (rid = rid1)) as [<-|Hne1].
    { rewrite lookup_insert_eq. intros [= <-]. congruence. }
    destruct (decide (rid = rid2)) as [<-|Hne2].
    { rewrite (lookup_insert_eq _ rid). intros _ [= <-]. congruence. }
    rewrite !lookup_insert_ne by done. apply H3.
Qed.

Lemma well_formed_register name rid r st :
  heap st !! rid = Some r → service_name r = name →
  well_formed st → well_formed (with_registries (<[name := rid]>) st).
Proof.
  intros Hr Hn [H1 H2 H3 H4 H5 H6 H7]. split; simpl; try done.
  - intros name' rid'. destruct (decide (name = name')) as [<-|Hne].
    + rewrite lookup_insert_eq. intros [= <-]. by exists r.
    + rewrite lookup_insert_ne by done. apply H1.
  - intros name' srv Hin. destruct (H6 _ _ Hin) as [Hsome Hbound]. split; [|done].
    destruct (decide (name = name')) as [<-|Hne].
    + rewrite lookup_insert_eq. by eexists.
    + by rewrite lookup_insert_ne.
Qed.

Lemma in_dict_set {A} k (v : A) d k' v' :
  In (k', v') (dict_set k v d) → (k', v') = (k, v) ∨ In (k', v') d.
Proof.
  induction d as [|[k0 v0] d IH]; simpl.
  - intros [Heq|[]]. by left.
  - destruct (String.eqb k0 k); simpl.
    + intros [Heq|Hin]; [by left|right; by right].
    + intros [Heq|Hin]; [right; by left|]. destruct (IH Hin); [by left|right; by right].
Qed.

Lemma well_formed_track name srv st :
  is_Some (_service_registries st !! name) →
  (∀ i b, srv = Some (i, b) → (i < length (listeners (world st)))%nat) →
  well_formed st → well_formed (with_servers (dict_set name srv) st).
Proof.
  intros Hsome Hbound [H1 H2 H3 H4 H5 H6 H7]. split; simpl; try done.
  intros name' srv' [[= -> ->]|Hin]%in_dict_set; [done|by apply H6].
Qed.

Lemma wf_new_MetricsRegistry name port_arg port_mapping label_extractor :
  preserves well_formed
    (new_MetricsRegistry name port_arg port_mapping label_extractor).
Proof.
  intros st Hwf. unfold new_MetricsRegistry. simpl.
  apply well_formed_alloc; [|done|done]. apply not_elem_of_dom, is_fresh.
Qed.

Lemma setup_metrics_new name port_arg port_mapping start_server st :
  _service_registries st !! name = None →
  setup_metrics name port_arg port_mapping start_server st
  = (let! _ := (if start_server then
                  let! success := start_metrics_server (fresh (dom (heap st))) None in
                  if success then
                    let! r := deref (fresh (dom (heap st))) in
                    λ st', (Return tt, with_servers (dict_set name (server r)) st')
                  else ret tt
                else ret tt) in
     logger INFO ("Metrics setup completed for service: " +:+ name) ;;
     ret (fresh (dom (heap st))))
      (with_registries (<[name := fresh (dom (heap st))]>)
         (with_heap (<[fresh (dom (heap st))
                       := init_MetricsRegistry name port_arg port_mapping None (world st)]>)
            st)).
Proof. intros Hnone. unfold setup_metrics. by rewrite Hnone. Qed.

#[local] Instance cached_name_stable name rid :
  Stable (λ st, _service_registries st !! name = Some rid).
Proof. by split. Qed.

Lemma wf_setup_metrics name port_arg port_mapping start_server :
  preserves well_formed (setup_metrics name port_arg port_mapping start_server).
Proof.
  intros st Hwf.
  destruct (_service_registries st !! name) as [rid|] eqn:Hc.
  { unfold setup_metrics. rewrite Hc. by apply (well_formed_ext st). }
  rewrite (setup_metrics_new _ _ _ _ _ Hc).
  set (rid0 := fresh (dom (heap st))).
  set (r0 := init_MetricsRegistry name port_arg port_mapping None (world st)).
  set (st2 := with_registries (<[name := rid0]>) (with_heap (<[rid0 := r0]>) st)).
  assert (well_formed st2) as Hwf2.
  { apply (well_formed_register name rid0 r0); [apply lookup_insert_eq|done|].
    apply well_formed_alloc; [|done|done]. apply not_elem_of_dom, is_fresh. }
  assert (_service_registries st2 !! name = Some rid0) as Hc2
    by apply lookup_insert_eq.
  unfold bind at 1.
  assert (∀ st3, well_formed st3 →
            well_formed (snd ((logger INFO ("Metrics setup completed for service: "
                                            +:+ name) ;; ret rid0) st3))) as Htail.
  { intros st3 Hwf3. by apply (well_formed_ext st3). }
  destruct start_server; [|by apply Htail].
  unfold bind at 1.
  pose proof (wf_start_metrics_server rid0 None st2 Hwf2) as Hwf3.
  pose proof (preserves_start_metrics_server _ rid0 None st2 Hc2) as Hc3.
  destruct (start_metrics_server rid0 None st2) as [[[]|e] st3]; simpl in Hwf3, Hc3;
    [|by apply Htail|done].
  unfold bind at 1. unfold deref.
  destruct (wf_cache _ Hwf3 _ _ Hc3) as (r3 & Hr3 & _). rewrite Hr3.
  apply Htail. apply well_formed_track; [by eexists| |done].
  intros i b Hsrv. destruct (wf_server _ Hwf3 _ _ _ _ Hr3 Hsrv) as (q & _ & Hq).
  by eapply lookup_lt_Some.
Qed.

Lemma stoppable_tracked i servers :
  In i (stoppable servers) → ∃ name, In (name, Some (i, true)) servers.
Proof.
  unfold stoppable. induction servers as [|[name srv] servers IH]; simpl; [done|].
  destruct srv as [[j []]|]; simpl.
  - intros [<-|Hin]; [exists name; by left|].
    destruct (IH Hin) as [name' Hin']. exists name'. by right.
  - intros Hin. destruct (IH Hin) as [name' Hin']. exists name'. by right.
  - intros Hin. destruct (IH Hin) as [name' Hin']. exists name'. by right.
Qed.

Lemma wf_shutdown_metrics_servers : preserves well_formed shutdown_metrics_servers.
Proof.
  intros st [H1 H2 H3 H4 H5 H6 H7].
  destruct (shutdown_loop_spec (_metrics_servers st) st)
    as (st1 & E & Hst & Hh & Hc & Hm & Hx & Hl & Ho).
  unfold shutdown_metrics_servers, bind. rewrite E. cbn.
  split; cbn; rewrite ?Hh, ?Hc, ?Hl, ?Ho, ?Hst; try done.
  intros i [Hi|Hi]%in_app_or; [by apply H7|].
  destruct (stoppable_tracked _ _ Hi) as [name Hin].
  by apply (proj2 (H6 _ _ Hin) i true).
Qed.

Lemma exec_keeps_well_formed t p : preserves well_formed (exec t p).
Proof.
  revert t. induction p; intros tid; simpl.
  - apply preserves_ret.
  - apply preserves_bind; [apply IHp1|intros; apply IHp2].
  - apply preserves_raise.
  - apply preserves_bind; [apply wf_setup_metrics|intros; apply preserves_ret].
  - apply preserves_bind; [apply wf_new_MetricsRegistry|intros; apply preserves_ret].
  - apply preserves_bind; [apply wf_start_metrics_server|intros; apply preserves_ret].
  - apply preserves_bind; [apply wf_create_counter|intros; apply preserves_ret].
  - apply preserves_bind; [apply wf_record_error|intros; apply preserves_ret].
  - apply preserves_bind; [apply wf_set_health_status|intros; apply preserves_ret].
  - apply preserves_bind; [apply wf_shutdown_metrics_servers|intros; apply preserves_ret].
  - apply preserves_bind; [apply wf_set_correlation_id|intros; apply preserves_ret].
  - apply wf_manage_metrics. simpl.
    apply preserves_bind; [apply IHp|intros; apply preserves_ret].
Qed.

(** X18.  Names and objects.  In every state a client program of the module
    reaches from a consistent one, on whatever path and however its calls
    end, the registry that [get_metrics_registry] finds under a name is a
    live object whose [service_name] is that name, so two names never lead
    to the same object; and every tracked server is under a name that has a
    registry. *)
Theorem registries_keep_their_names t p st :
  well_formed st →
  (∀ name rid,
     fst (get_metrics_registry (PStr name) (snd (exec t p st))) = Return (Some rid) →
     ∃ r, heap (snd (exec t p st)) !! rid = Some r ∧ service_name r = name)
  ∧ (∀ name name' rid,
       _service_registries (snd (exec t p st)) !! name = Some rid →
       _service_registries (snd (exec t p st)) !! name' = Some rid →
       name = name')
  ∧ (∀ name srv,
       In (name, srv) (_metrics_servers (snd (exec t p st))) →
       is_Some (_service_registries (snd (exec t p st)) !! name)).
Proof.
  intros Hwf. pose proof (exec_keeps_well_formed t p st Hwf) as [H1 _ _ _ _ H6 _].
  split; [|split].
  - intros name rid. simpl. intros [= Hc]. by apply H1.
  - intros name name' rid Hc Hc'.
    destruct (H1 _ _ Hc) as (r & Hr & <-). destruct (H1 _ _ Hc') as (r' & Hr' & <-).
    congruence.
  - intros name srv Hin. by apply (H6 _ _ Hin).
Qed.


(** ** Counters only grow *)

Lemma registry_le_refl r : registry_le r r.
Proof. repeat split; [done|done|]. intros name c Hc. by exists c. Qed.

Lemma registry_le_fields r r' :
  service_name r' = service_name r → registry r' = registry r →
  errors_total r' = errors_total r → attrs r' = attrs r →
  registry_le r r'.
Proof.
  intros Hn Hr He Ha. unfold registry_le, error_count. rewrite Hn, Hr, He, Ha.
  repeat split; [done|done|]. intros name c Hc. by exists c.
Qed.

Lemma registry_le_trans r1 r2 r3 :
  registry_le r1 r2 → registry_le r2 r3 → registry_le r1 r3.
Proof.
  intros (Hn & Hr & He & Ha) (Hn' & Hr' & He' & Ha').
  split; [congruence|]. split; [set_solver|]. split.
  - intros t c. specialize (He t c). specialize (He' t c). lia.
  - intros name c Hc. destruct (Ha _ _ Hc) as (c2 & Hc2 & Hl2 & Hk2).
    destruct (Ha' _ _ Hc2) as (c3 & Hc3 & Hl3 & Hk3).
    exists c3. split; [done|]. split; [congruence|].
    intros key. specialize (Hk2 key). specialize (Hk3 key). lia.
Qed.

Lemma grows_same st st' :
  heap st' = heap st → _service_registries st' = _service_registries st →
  grows st st'.
Proof.
  intros Hh Hc. split; rewrite ?Hh, ?Hc; [|done].
  intros rid r Hr. exists r. split; [done|apply registry_le_refl].
Qed.

Lemma grows_trans st1 st2 st3 : grows st1 st2 → grows st2 st3 → grows st1 st3.
Proof.
  intros [Hh Hc] [Hh' Hc']. split.
  - intros rid r Hr. destruct (Hh _ _ Hr) as (r2 & Hr2 & Hle).
    destruct (Hh' _ _ Hr2) as (r3 & Hr3 & Hle'). exists r3.
    split; [done|by eapply registry_le_trans].
  - intros name rid Hn. by apply Hc', Hc.
Qed.

Lemma only_grows_ret {A} (a : A) : only_grows (ret a).
Proof. intros st. by apply grows_same. Qed.

Lemma only_grows_raise {A} e : only_grows (raise (A:=A) e).
Proof. intros st. by apply grows_same. Qed.

Lemma only_grows_bind {A B} (c : M A) (k : A → M B) :
  only_grows c → (∀ a, only_grows (k a)) → only_grows (bind c k).
Proof.
  intros Hc Hk st. unfold bind. specialize (Hc st).
  destruct (c st) as [[a|e] st']; simpl in *; [|done].
  eapply grows_trans; [exact Hc|apply Hk].
Qed.

Lemma only_grows_logger l msg : only_grows (logger l msg).
Proof. intros st. by apply grows_same. Qed.

Lemma grows_mutate rid g st :
  (∀ r, heap st !! rid = Some r → registry_le r (g r)) →
  grows st (with_heap (alter g rid) st).
Proof.
  intros Hg. split; [|done]. simpl. intros rid' r Hr.
  destruct (decide (rid = rid')) as [<-|Hne].
  - rewrite lookup_alter_eq, Hr. eexists. split; [reflexivity|by apply Hg].
  - rewrite lookup_alter_ne by done. exists r. split; [done|apply registry_le_refl].
Qed.

Lemma only_grows_record_error rid error_type component :
  only_grows (record_error rid error_type component).
Proof.
  intros st. apply grows_mutate. intros r _.
  split; [done|]. split; [done|]. split; [|intros name c Hc; by exists c].
  intros t c. unfold error_count. simpl.
  destruct (decide ((error_type, component) = (t, c))) as [<-|Hne].
  - rewrite lookup_insert_eq. simpl. lia.
  - by rewrite lookup_insert_ne.
Qed.

Lemma only_grows_set_health_status rid healthy :
  only_grows (set_health_status rid healthy).
Proof. intros st. apply grows_mutate. intros r _. by apply registry_le_fields. Qed.

Lemma only_grows_create_counter rid name description labels :
  only_grows (create_counter rid name description labels).
Proof.
  intros st. unfold create_counter, bind, deref.
  destruct (heap st !! rid) as [r|] eqn:Hr; [|by apply grows_same].
  destruct (negb (sink_valid_name name)); [by apply grows_same|].
  case_bool_decide; [by apply grows_same|]. cbn.
  apply grows_mutate. intros r' Hr'. assert (r' = r) as -> by congruence.
  split; [done|]. split; [simpl; set_solver|].
  split; [done|]. intros name' c Hc. by exists c.
Qed.

Lemma labels_inc_grows kw c c' :
  labels_inc kw c = Return c' →
  labelnames c' = labelnames c ∧ ∀ key, (count c key ≤ count c' key)%nat.
Proof.
  unfold labels_inc. case_bool_decide; [done|].
  destruct (negb _); [done|]. intros [= <-]. split; [done|].
  intros key. unfold count. simpl.
  destruct (decide (map (λ l, default "" (assoc l kw)) (labelnames c) = key))
    as [<-|Hne].
  - rewrite lookup_insert_eq. simpl. lia.
  - by rewrite lookup_insert_ne.
Qed.

Lemma only_grows_getattr_labels_inc rid name :
  only_grows (getattr_labels_inc rid name).
Proof.
  intros st. unfold getattr_labels_inc, bind, deref.
  destruct (heap st !! rid) as [r|] eqn:Hr; [|by apply grows_same].
  destruct (attrs r !! name) as [c|] eqn:Hc.
  - destruct (labels_inc _ c) as [c'|e] eqn:Hinc; [|by apply grows_same].
    destruct (labels_inc_grows _ _ _ Hinc) as [Hl Hk].
    apply grows_mutate. intros r' Hr'. assert (r' = r) as -> by congruence.
    split; [done|]. split; [done|]. split; [done|].
    intros name' c0 Hc0. simpl. destruct (decide (name = name')) as [<-|Hne].
    + rewrite lookup_insert_eq. exists c'. assert (c0 = c) as -> by congruence. done.
    + rewrite lookup_insert_ne by done. exists c0. by repeat split.
  - destruct (String.eqb name "errors_total"); [by apply grows_same|].
    case_bool_decide; by apply grows_same.
Qed.

Lemma only_grows_record_success success_name func rid :
  only_grows (record_success success_name func rid).
Proof.
  intros st. unfold record_success. unfold bind at 1. unfold deref at 1.
  destruct (heap st !! rid) as [r|] eqn:Hr; [|by apply grows_same].
  assert (only_grows (getattr_labels_inc rid success_name ;;
                      set_health_status rid true ;;
                      logger INFO ("Successfully recorded " +:+ success_name
                                   +:+ " for " +:+ __name__ func))) as Htail.
  { apply only_grows_bind; [apply only_grows_getattr_labels_inc|].
    intros _. apply only_grows_bind; [apply only_grows_set_health_status|].
    intros _. apply only_grows_logger. }
  unfold bind at 1.
  destruct (negb (hasattr r success_name)) eqn:Hhas; [|apply Htail].
  assert (attrs r !! success_name = None) as Hnone.
  { apply negb_true_iff in Hhas. unfold hasattr in Hhas.
    apply orb_false_iff in Hhas as [Hhas _]. apply orb_false_iff in Hhas as [Hhas _].
    apply bool_decide_eq_false in Hhas. by apply eq_None_not_Some. }
  unfold bind at 1.
  pose proof (only_grows_create_counter rid success_name
                ("Total number of successful " +:+ __name__ func +:+ " executions")
                (Some ["component"]) st) as Hcreate.
  assert (∀ c st1, create_counter rid success_name
                ("Total number of successful " +:+ __name__ func +:+ " executions")
                (Some ["component"]) st = (Return c, st1) →
            ∃ r1, heap st1 !! rid = Some r1 ∧ attrs r1 = attrs r) as Hpost.
  { intros c st1. unfold create_counter, bind, deref. rewrite Hr.
    destruct (negb (sink_valid_name success_name)); [done|].
    case_bool_decide; [done|]. cbn. intros [= _ <-]. cbn.
    rewrite lookup_alter_eq, Hr. by eexists. }
  destruct (create_counter rid success_name _ _ st) as [[c|e] st1]; [|done].
  simpl in Hcreate. destruct (Hpost c st1 eq_refl) as (r1 & Hr1 & Hattrs).
  eapply grows_trans; [exact Hcreate|].
  eapply grows_trans; [|apply Htail].
  apply grows_mutate. intros r' Hr'. assert (r' = r1) as -> by congruence.
  split; [done|]. split; [done|]. split; [done|].
  intros name' c0 Hc0. simpl. destruct (decide (success_name = name')) as [<-|Hne].
  - rewrite Hattrs, Hnone in Hc0. done.
  - rewrite lookup_insert_ne by done. exists c0. by repeat split.
Qed.

Lemma only_grows_except_clause failure_name func reg e :
  only_grows (except_clause failure_name func reg e).
Proof.
  unfold except_clause. destruct reg as [rid|]; [|apply only_grows_raise].
  apply only_grows_bind; [apply only_grows_record_error|].
  intros _. apply only_grows_bind; [apply only_grows_set_health_status|].
  intros _. apply only_grows_bind; [apply only_grows_logger|].
  intros _. apply only_grows_raise.
Qed.

Lemma only_grows_start_metrics_server rid port_arg :
  only_grows (start_metrics_server rid port_arg).
Proof.
  intros st.
  destruct (heap st !! rid) as [r|] eqn:Hr.
  2:{ unfold start_metrics_server, bind, deref. rewrite Hr. by apply grows_same. }
  destruct (server r) as [h|] eqn:Hs.
  { unfold start_metrics_server, bind, deref. rewrite Hr, Hs. by apply grows_same. }
  destruct (start_metrics_server rid port_arg st) as [[b|e] st1] eqn:E; cbn [snd].
  2:{ destruct (start_metrics_server_raises rid r port_arg st e st1 Hr Hs E)
        as (Hh & _ & _ & _ & Hc & _).
      by apply grows_same. }
  destruct (start_metrics_server_post rid r port_arg st b st1 Hr Hs E)
    as (_ & p & q & _ & _ & _ & _ & _ & Hh & _ & _ & _ & Hc & _).
  split; rewrite ?Hh, ?Hc; [|done].
  intros rid' r' Hr'. destruct (decide (rid = rid')) as [<-|Hne].
  - rewrite lookup_insert_eq. eexists. split; [reflexivity|].
    assert (r' = r) as -> by congruence.
    split; [done|]. split; [done|]. split; [done|]. intros name c Hc0. by exists c.
  - rewrite lookup_insert_ne by done. exists r'. split; [done|apply registry_le_refl].
Qed.

Lemma only_grows_setup_metrics name port_arg port_mapping start_server :
  only_grows (setup_metrics name port_arg port_mapping start_server).
Proof.
  intros st.
  destruct (_service_registries st !! name) as [rid|] eqn:Hc.
  { unfold setup_metrics. rewrite Hc. by apply grows_same. }
  rewrite (setup_metrics_new _ _ _ _ _ Hc).
  set (rid0 := fresh (dom (heap st))).
  set (r0 := init_MetricsRegistry name port_arg port_mapping None (world st)).
  set (st2 := with_registries (<[name := rid0]>) (with_heap (<[rid0 := r0]>) st)).
  assert (grows st st2) as Hg2.
  { assert (heap st !! rid0 = None) as Hfresh by apply not_elem_of_dom, is_fresh.
    split; simpl.
    - intros rid r Hr. exists r. split; [|apply registry_le_refl].
      rewrite lookup_insert_ne; [done|congruence].
    - intros name' rid Hn. rewrite lookup_insert_ne; [done|congruence]. }
  eapply grows_trans; [exact Hg2|].
  revert st2 Hg2. intros st2 _. revert st2.
  apply only_grows_bind; [|intros; apply only_grows_bind;
                            [apply only_grows_logger|intros; apply only_grows_ret]].
  destruct start_server; [|apply only_grows_ret].
  apply only_grows_bind; [apply only_grows_start_metrics_server|].
  intros []; [|apply only_grows_ret].
  intros st3. unfold bind, deref.
  destruct (heap st3 !! rid0); by apply grows_same.
Qed.

Lemma only_grows_new_MetricsRegistry name port_arg port_mapping label_extractor :
  only_grows (new_MetricsRegistry name port_arg port_mapping label_extractor).
Proof.
  intros st. unfold new_MetricsRegistry. simpl.
  assert (heap st !! fresh (dom (heap st)) = None) as Hfresh
    by apply not_elem_of_dom, is_fresh.
  split; simpl; [|done].
  intros rid r Hr. exists r. split; [|apply registry_le_refl].
  rewrite lookup_insert_ne; [done|congruence].
Qed.

Lemma only_grows_manage_metrics success_name failure_name func t args kwargs :
  only_grows (call func t args kwargs) →
  only_grows (manage_metrics success_name failure_name func t args kwargs).
Proof.
  intros Hf st. rewrite manage_metrics_unfold.
  destruct (correlation_prologue_frame t st) as (Hh0 & Hc0 & _).
  set (st0 := snd (correlation_prologue t st)) in *.
  assert (grows st st0) as Hg0 by (by apply grows_same).
  assert (grows st0 (snd (try_block success_name func t args kwargs st0))) as Hg1.
  { unfold try_block. pose proof (lookup_registry_pure args kwargs st0) as Hpure.
    destruct (lookup_registry args kwargs st0) as [[[rid|]|e] st1];
      simpl in Hpure; subst st1; [| |by apply grows_same].
    - pose proof (Hf st0) as Hg2.
      destruct (call func t args kwargs st0) as [[v|e] st2]; simpl in *; [|done].
      pose proof (only_grows_record_success success_name func rid st2) as Hg3.
      destruct (record_success success_name func rid st2) as [[]];
        simpl in *; by eapply grows_trans.
    - pose proof (Hf st0) as Hg2.
      by destruct (call func t args kwargs st0). }
  destruct (try_block _ _ _ _ _ _) as [[res reg] st1]. simpl in Hg1.
  assert (grows st st1) as Hg by (by eapply grows_trans).
  destruct res as [v|e]; simpl.
  - eapply grows_trans; [exact Hg|]. by apply grows_same.
  - destruct (exn_is_Exception e); simpl.
    + pose proof (only_grows_except_clause failure_name func reg e st1) as Hg2.
      destruct (except_clause failure_name func reg e st1) as [res' st2].
      simpl in *. eapply grows_trans; [exact Hg|].
      eapply grows_trans; [exact Hg2|]. by apply grows_same.
    + eapply grows_trans; [exact Hg|]. by apply grows_same.
Qed.

Lemma only_grows_shutdown_metrics_servers : only_grows shutdown_metrics_servers.
Proof.
  intros st.
  destruct (shutdown_loop_spec (_metrics_servers st) st)
    as (st1 & E & _ & Hh & Hc & _).
  unfold shutdown_metrics_servers, bind. rewrite E. by apply grows_same.
Qed.

Lemma only_grows_exec t p : only_grows (exec t p).
Proof.
  revert t. induction p; intros tid; simpl.
  - apply only_grows_ret.
  - apply only_grows_bind; [apply IHp1|intros; apply IHp2].
  - apply only_grows_raise.
  - apply only_grows_bind; [apply only_grows_setup_metrics|intros; apply only_grows_ret].
  - apply only_grows_bind; [apply only_grows_new_MetricsRegistry
                           |intros; apply only_grows_ret].
  - apply only_grows_bind; [apply only_grows_start_metrics_server
                           |intros; apply only_grows_ret].
  - apply only_grows_bind; [apply only_grows_create_counter|intros; apply only_grows_ret].
  - apply only_grows_bind; [apply only_grows_record_error|intros; apply only_grows_ret].
  - apply only_grows_bind; [apply only_grows_set_health_status
                           |intros; apply only_grows_ret].
  - apply only_grows_bind; [apply only_grows_shutdown_metrics_servers
                           |intros; apply only_grows_ret].
  - apply only_grows_bind; [|intros; apply only_grows_ret].
    intros st. by apply grows_same.
  - apply only_grows_manage_metrics. simpl.
    apply only_grows_bind; [apply IHp|intros; apply only_grows_ret].
Qed.

(** X20.  Nothing is ever reset.  Whatever a client program of the module
    does, and however its calls end, an object that was there is there
    afterwards under the same reference and with the same name; no metric
    name has left its collector registry; no error count is lower than it
    was; and every counter that a wrapper attached is still attached, with
    the same label names and no count lower than it was. *)
Theorem counters_never_go_back t p st rid r :
  heap st !! rid = Some r →
  ∃ r',
    heap (snd (exec t p st)) !! rid = Some r'
    ∧ service_name r' = service_name r
    ∧ registry r ⊆ registry r'
    ∧ (∀ error_type component,
         (error_count r error_type component
          ≤ error_count r' error_type component)%nat)
    ∧ (∀ name c, attrs r !! name = Some c →
         ∃ c', attrs r' !! name = Some c' ∧ labelnames c' = labelnames c
               ∧ ∀ key, (count c key ≤ count c' key)%nat).
Proof.
  intros Hr. destruct (only_grows_exec t p st) as [Hh _].
  destruct (Hh _ _ Hr) as (r' & Hr' & Hle). by exists r'.
Qed.

End MoreObservability.

(** ** Runs of the further properties on sample data *)

Lemma resolve_target_port_priority_witness :
  fst (@resolve_target_port (sample_externals true) O None sample_mapped) = Return 9300
  ∧ fst (@resolve_target_port (sample_externals true) O (Some 7000) sample_mapped)
    = Return 7000.
Proof.
  assert (∃ r, heap sample_mapped !! O = Some r
               ∧ service_name r = "my-svc-1"
               ∧ _port_mapping r = [("api", 9100); ("svc", 9300); ("my", 9400)]
               ∧ port r = None) as (r & Hr & Hname & Hmap & Hport)
    by (eexists; split; [vm_compute; reflexivity|repeat split]).
  destruct (@resolve_target_port_priority (sample_externals true) O r None sample_mapped Hr)
    as (_ & _ & _ & Hmapping).
  destruct (@resolve_target_port_priority (sample_externals true) O r (Some 7000)
              sample_mapped Hr) as (Harg & _).
  split; [|by rewrite (Harg 7000 eq_refl ltac:(lia))].
  destruct Hmapping as [Hfirst _]; [reflexivity|by rewrite Hport|by left|].
  rewrite (Hfirst [("api", 9100)] "svc" 9300 [("my", 9400)]); [reflexivity|exact Hmap| |].
  - exists "my-", "-1". by rewrite Hname.
  - intros k q [[= <- <-]|[]] Hsub. rewrite Hname in Hsub.
    apply is_substring_iff in Hsub. vm_compute in Hsub. discriminate.
Defined.


Lemma start_twice_one_listener_witness :
  let st := sample_unstarted (sample_externals true) in
  let st1 := snd (@start_metrics_server (sample_externals true) O None st) in
  ∃ st2, @start_metrics_server (sample_externals true) O (Some 7000) st1
         = (Return true, st2)
         ∧ length (listeners (world st2)) = 1%nat.
Proof.
  intros st st1.
  assert (∃ r, heap st !! O = Some r ∧ server r = None) as (r & Hr & Hs)
    by (eexists; split; vm_compute; reflexivity).
  assert (@start_metrics_server (sample_externals true) O None st = (Return true, st1))
    as Hrun by (vm_compute; reflexivity).
  destruct (@start_twice_one_listener (sample_externals true) O r None (Some 7000)
              st true st1 Hr Hs ltac:(discriminate) Hrun)
    as (st2 & E & _ & _ & Hlen).
  exists st2. split; [exact E|]. rewrite Hlen. vm_compute. reflexivity.
Defined.



Lemma shutdown_is_final_witness :
  ∃ st1 st2,
    shutdown_metrics_servers (sample_started true) = (Return tt, st1)
    ∧ @start_metrics_server (sample_externals true) O (Some 9500) st1 = (Return true, st2)
    ∧ listeners (world st2) = listeners (world (sample_started true)).
Proof.
  assert (∃ r h, heap (sample_started true) !! O = Some r ∧ server r = Some h)
    as (r & h & Hr & Hs) by (eexists; eexists; split; vm_compute; reflexivity).
  destruct (@shutdown_is_final (sample_externals true) O r h (sample_started true) Hr Hs)
    as (st1 & E & Hstart & _).
  destruct (Hstart (Some 9500)) as (st2 & E2 & _ & Hl & _).
  exists st1, st2. by repeat split.
Defined.

Lemma record_errors_accumulate_witness :
  ∃ r' st',
    record_errors 3 O "timeout" "db" (sample_unstarted (sample_externals true))
    = (Return tt, st')
    ∧ heap st' !! O = Some r'
    ∧ error_count r' "timeout" "db" = 3%nat.
Proof.
  assert (∃ r, heap (sample_unstarted (sample_externals true)) !! O = Some r
               ∧ error_count r "timeout" "db" = O) as (r & Hr & H0)
    by (eexists; split; vm_compute; reflexivity).
  destruct (record_errors_accumulate 3 O r "timeout" "db" _ Hr)
    as (r' & st' & E & Hr' & Hn & _).
  exists r', st'. split; [exact E|]. split; [exact Hr'|]. by rewrite Hn, H0.
Defined.

Lemma wrapper_without_registry_witness :
  fst (@manage_metrics (sample_externals true) "ok" "bad" noop 7%nat [PInt 3] ∅
         (sample_started true)) = Return PNone
  ∧ heap (snd (@manage_metrics (sample_externals true) "ok" "bad" noop 7%nat [PInt 3] ∅
                 (sample_started true))) = heap (sample_started true).
Proof.
  destruct (@wrapper_without_registry (sample_externals true) "ok" "bad" noop 7%nat
              [PInt 3] ∅ (sample_started true) ltac:(vm_compute; exact I))
    as (cid & st1 & _ & _ & _ & _ & Hh & _ & _ & Hrun).
  rewrite Hrun. split; [reflexivity|exact Hh].
Defined.

Lemma wrapper_unhashable_service_name_witness :
  ∃ e, fst (@manage_metrics (sample_externals true) "ok" "bad" noop 7%nat []
              {[ "service_name" := PUnhashable ]} (sample_started true)) = Raise e
       ∧ exn_class e = "TypeError".
Proof.
  destruct (@wrapper_unhashable_service_name (sample_externals true) "ok" "bad" noop
              7%nat [] {[ "service_name" := PUnhashable ]} (sample_started true))
    as (e & E & Hcls); [by intros s rest|vm_compute; reflexivity|].
  exists e. rewrite E. split; [reflexivity|exact Hcls].
Defined.


Lemma registries_keep_their_names_witness :
  let st' := snd (@exec (sample_externals true) O
                    (PSeq (PSetup "a" None None true) (PSetup "b" None None false))
                    (initial_state (sample_world ∅))) in
  ∃ rid r, fst (get_metrics_registry (PStr "b") st') = Return (Some rid)
           ∧ heap st' !! rid = Some r ∧ service_name r = "b".
Proof.
  intros st'.
  assert (fst (get_metrics_registry (PStr "b") st') = Return (Some 1%nat)) as Hget
    by (vm_compute; reflexivity).
  destruct (@registries_keep_their_names (sample_externals true) O
              (PSeq (PSetup "a" None None true) (PSetup "b" None None false))
              (initial_state (sample_world ∅))
              (initial_state_well_formed (sample_world ∅) eq_refl eq_refl)) as (Hnames & _).
  destruct (Hnames "b" 1%nat Hget) as (r & Hr & Hn).
  exists 1%nat, r. split; [exact Hget|]. split; [exact Hr|exact Hn].
Defined.


Lemma counters_never_go_back_witness :
  let st := snd (@record_errors 2 O "timeout" "db" (sample_started true)) in
  let st' := snd (@exec (sample_externals true) 7%nat
                    (PSeq (PWrapped "ok" "bad" "job" [PStr "svc"] ∅
                             (PRaise (ValueError "boom")) PNone)
                          PShutdownServers) st) in
  ∃ r', heap st' !! O = Some r' ∧ service_name r' = "svc"
        ∧ (2 ≤ error_count r' "timeout" "db")%nat.
Proof.
  intros st st'.
  assert (∃ r, heap st !! O = Some r ∧ service_name r = "svc"
               ∧ error_count r "timeout" "db" = 2%nat) as (r & Hr & Hn & He)
    by (eexists; split; [vm_compute; reflexivity|split; vm_compute; reflexivity]).
  destruct (@counters_never_go_back (sample_externals true) 7%nat
              (PSeq (PWrapped "ok" "bad" "job" [PStr "svc"] ∅
                       (PRaise (ValueError "boom")) PNone)
                    PShutdownServers) st O r Hr) as (r' & Hr' & Hn' & _ & Hcount & _).
  exists r'. split; [exact Hr'|]. split; [by rewrite Hn'|].
  rewrite <- He. apply Hcount.
Defined.

(** ** The project root *)

Section ProjectRootProperties.
Variable path_exists : path → bool.

Lemma dirname_fixed p : dirname p = p ↔ p = [].
Proof.
  split; [|by intros ->].
  destruct p as [|a p _] using rev_ind; [done|].
  unfold dirname. rewrite removelast_last. intros Heq.
  apply (f_equal length) in Heq. rewrite length_app in Heq. simpl in Heq. lia.
Qed.

Lemma dirname_length p : length (dirname p) = (length p - 1)%nat.
Proof.
  destruct p as [|a p _] using rev_ind; [done|].
  unfold dirname. rewrite removelast_last, length_app. simpl. lia.
Qed.

Lemma ancestor_succ k p : ancestor (S k) p = ancestor k (dirname p).
Proof. unfold ancestor. by rewrite Nat.iter_succ_r. Qed.

Lemma find_root_loop_nearest k n current :
  (k < n)%nat → (k ≤ length current)%nat →
  has_marker path_exists (ancestor k current) = true →
  (∀ j, (j < k)%nat → has_marker path_exists (ancestor j current) = false) →
  find_root_loop path_exists n current = Some (ancestor k current).
Proof.
  revert n current. induction k as [|k IH]; intros n current Hn Hlen Hk Hbelow.
  - destruct n as [|n]; [lia|]. simpl. unfold ancestor in Hk. simpl in Hk.
    by rewrite Hk.
  - destruct n as [|n]; [lia|]. cbn [find_root_loop].
    rewrite (Hbelow O ltac:(lia) : has_marker path_exists current = false).
    rewrite bool_decide_eq_false_2.
    2:{ rewrite dirname_fixed. intros ->. simpl in Hlen. lia. }
    rewrite ancestor_succ. apply IH.
    + lia.
    + rewrite dirname_length. lia.
    + by rewrite <- ancestor_succ.
    + intros j Hj. rewrite <- ancestor_succ. apply Hbelow. lia.
Qed.

Lemma find_root_loop_none n current :
  (∀ k, (k < n)%nat → (k ≤ length current)%nat →
        has_marker path_exists (ancestor k current) = false) →
  find_root_loop path_exists n current = None.
Proof.
  revert current. induction n as [|n IH]; intros current Hall; [done|]. cbn [find_root_loop].
  rewrite (Hall O ltac:(lia) ltac:(lia) : has_marker path_exists current = false).
  case_bool_decide as Hroot; [done|]. apply IH. intros k Hk Hlen.
  rewrite <- ancestor_succ. apply Hall; [lia|].
  rewrite dirname_length in Hlen. rewrite dirname_fixed in Hroot.
  destruct current; [done|]. simpl in *. lia.
Qed.

Lemma find_root_loop_some n current r :
  find_root_loop path_exists n current = Some r →
  ∃ k, (k < n)%nat ∧ (k ≤ length current)%nat ∧ r = ancestor k current
       ∧ has_marker path_exists r = true.
Proof.
  revert current. induction n as [|n IH]; intros current; [done|]. cbn [find_root_loop].
  destruct (has_marker path_exists current) eqn:Hm.
  - intros [= <-]. exists O. repeat split; [lia|lia|done].
  - case_bool_decide as Hroot; [done|]. intros Hr.
    destruct (IH _ Hr) as (k & Hk & Hlen & -> & Hmk).
    exists (S k). rewrite ancestor_succ. split; [lia|]. split; [|done].
    rewrite dirname_length in Hlen. rewrite dirname_fixed in Hroot.
    destruct current; [done|]. simpl in *. lia.
Qed.

(** X15.  [_find_project_root] returns the nearest directory that holds one
    of the four markers among the working directory and the nine directories
    above it, as far as the root.  When none of them holds a marker it
    returns the working directory: a marker ten or more levels up is never
    found.  What it returns is always the working directory or one of these
    nine ancestors, and differs from the working directory only if it holds
    a marker. *)
Theorem find_project_root_nearest (start_dir : path) :
  (∀ k, (k < 10)%nat → (k ≤ length start_dir)%nat →
        has_marker path_exists (ancestor k start_dir) = true →
        (∀ j, (j < k)%nat → has_marker path_exists (ancestor j start_dir) = false) →
        _find_project_root path_exists start_dir = ancestor k start_dir)
  ∧ ((∀ k, (k < 10)%nat → (k ≤ length start_dir)%nat →
           has_marker path_exists (ancestor k start_dir) = false) →
     _find_project_root path_exists start_dir = start_dir)
  ∧ (∃ k, (k < 10)%nat ∧ (k ≤ length start_dir)%nat
          ∧ _find_project_root path_exists start_dir = ancestor k start_dir
          ∧ (_find_project_root path_exists start_dir ≠ start_dir →
             has_marker path_exists (_find_project_root path_exists start_dir) = true)).
Proof.
  unfold _find_project_root. split; [|split].
  - intros k Hk Hlen Hm Hbelow.
    by rewrite (find_root_loop_nearest k 10 start_dir Hk Hlen Hm Hbelow).
  - intros Hall. by rewrite (find_root_loop_none 10 start_dir Hall).
  - destruct (find_root_loop path_exists 10 start_dir) as [r|] eqn:E; simpl.
    + destruct (find_root_loop_some _ _ _ E) as (k & Hk & Hlen & -> & Hm).
      exists k. by repeat split.
    + exists O. repeat split; [lia|lia|done].
Qed.

End ProjectRootProperties.

Lemma find_project_root_nearest_witness :
  _find_project_root
    (λ p, bool_decide (p = ["home"; "u"; "proj"; ".git"]
                       ∨ p = ["home"; "requirements.txt"]))
    ["home"; "u"; "proj"; "src"; "pkg"]
  = ["home"; "u"; "proj"].
Proof.
  apply (proj1 (find_project_root_nearest _ ["home"; "u"; "proj"; "src"; "pkg"]) 2%nat).
  - lia.
  - simpl. lia.
  - vm_compute. reflexivity.
  - intros [|[|j]] Hj; [vm_compute; reflexivity|vm_compute; reflexivity|lia].
Defined.

(** ** The repository and the query builder *)

Lemma where_conditions_clickhouse l :
  all_valid l →
  where_conditions "clickhouse" l
  = Return (map (λ k, k +:+ " = %(" +:+ k +:+ ")s") l).
Proof.
  induction l as [|a l IH]; intros Hl; simpl; [done|].
  rewrite sanitize_identifier_returns by (apply Hl; by left). simpl.
  rewrite IH by (intros s Hs; apply Hl; by right). done.
Qed.

(** X17.  The repository and the builder agree where the builder accepts.
    For a table name and condition keys that are valid identifiers and at
    least one condition, [ClickHouseRepository.query] hands the client
    exactly the statement [build_select_query] builds for all columns in the
    ClickHouse dialect, with the conditions as parameters, and [count] hands
    it the [count()] statement with the same [WHERE] clause and parameters.
    With no condition they part: the builder leaves the clause out, as
    [count] does (for an empty dictionary as for [None], without
    parameters), while [query] sends a statement that ends in [WHERE]. *)
Theorem repository_query_matches_builder {V C : Type}
    (execute : string → ClickHouseRepository.exec_params (V:=V) → C
               → result (list (list V)) * C)
    table (conditions : pydict V) c :
  all_valid (table :: keys conditions) →
  (conditions ≠ [] →
   ∃ w,
     build_select_query table [] conditions None None "clickhouse"
     = Return ("SELECT * FROM " +:+ table +:+ " WHERE " +:+ w)
     ∧ ClickHouseRepository.query execute table conditions c
       = execute ("SELECT * FROM " +:+ table +:+ " WHERE " +:+ w)
           (ClickHouseRepository.DictParams conditions) c
     ∧ snd (ClickHouseRepository.count execute table (Some conditions) c)
       = snd (execute ("SELECT count() FROM " +:+ table +:+ " WHERE " +:+ w)
                (ClickHouseRepository.DictParams conditions) c))
  ∧ (conditions = [] →
     build_select_query table [] conditions None None "clickhouse"
     = Return ("SELECT * FROM " +:+ table)
     ∧ ClickHouseRepository.query execute table conditions c
       = execute ("SELECT * FROM " +:+ table +:+ " WHERE ")
           (ClickHouseRepository.DictParams []) c
     ∧ ClickHouseRepository.count execute table (Some conditions) c
       = ClickHouseRepository.count execute table None c
     ∧ snd (ClickHouseRepository.count execute table None c)
       = snd (execute ("SELECT count() FROM " +:+ table)
                ClickHouseRepository.NoParams c)).
Proof.
  intros Hv.
  assert (sanitize_identifier table = Return table) as Ht
    by (apply sanitize_identifier_returns, Hv; by left).
  split.
  - intros Hne.
    exists (join " AND " (map (λ k, k +:+ " = %(" +:+ k +:+ ")s") (keys conditions))).
    split; [|split].
    + unfold build_select_query. rewrite Ht. cbn [rbind].
      destruct conditions as [|kv conditions]; [done|].
      rewrite where_conditions_clickhouse by (intros s Hs; apply Hv; by right).
      reflexivity.
    + reflexivity.
    + unfold ClickHouseRepository.count.
      destruct conditions as [|kv conditions]; [done|].
      by destruct (execute _ _ c).
  - intros ->. unfold build_select_query. rewrite Ht. cbn [rbind].
    split; [reflexivity|]. split; [reflexivity|]. split; [reflexivity|].
    unfold ClickHouseRepository.count. by destruct (execute _ _ c).
Qed.

Lemma repository_query_matches_builder_witness :
  ∃ w,
    build_select_query (V:=Z) "users" [] [("id", 7); ("age", 30)] None None "clickhouse"
    = Return ("SELECT * FROM users WHERE " +:+ w)
    ∧ ClickHouseRepository.query (V:=Z) (C:=list string)
        (λ q _ c, (Return [], (c ++ [q])%list)) "users" [("id", 7); ("age", 30)] []
      = (Return [], ["SELECT * FROM users WHERE " +:+ w]).
Proof.
  destruct (proj1 (@repository_query_matches_builder Z (list string)
                     (λ q _ c, (Return [], (c ++ [q])%list)) "users"
                     [("id", 7); ("age", 30)] []
                     ltac:(intros s [<-|[<-|[<-|[]]]]; reflexivity))
              ltac:(discriminate)) as (w & Hb & Hq & _).
  exists w. split; [exact Hb|]. rewrite Hq. reflexivity.
Defined.

(** ** The polling wait with an interval that is not positive *)

Section WaitWithoutProgress.
Variable is_set : Z → bool.
Variables timeout check_interval : Z.
Hypothesis interval_not_positive : check_interval ≤ 0.
Hypothesis timeout_positive : 0 < timeout.




End WaitWithoutProgress.

